(** * blt-gobbler: the BLT parser of [src/parser.js], embedded in Rocq

    The JavaScript function [parse] is a pipeline of string and array
    built-ins ([split], [replace], [trim], [filter], [map], [findIndex],
    [slice], [shift], [reduce], [Number], [RegExp.prototype.test]).  Each
    built-in is modelled below by an executable function following
    ECMA-262, and [parse] is then transcribed statement by statement.

    - A JavaScript string is a sequence of UTF-16 code units: [list N].
    - An array is a [list]; the object built by [reduce] is a [gmap].
    - [undefined] is [None].
    - The only exception [parse] can raise is the [TypeError] of calling a
      method on [undefined]; it is the [Throw] case of [completion]. *)

From Stdlib Require Import NArith ZArith Ascii String.
From stdpp Require Import base list gmap.

Local Open Scope N_scope.

(** ** Strings *)

Definition jsstring := list N.

(** An ASCII literal as a sequence of code units. *)
Definition str (s : string) : jsstring :=
  N_of_ascii <$> list_ascii_of_string s.

Definition chr (a : ascii) : N := N_of_ascii a.

(** *** Character classes of ECMA-262 *)

(** LineTerminator: LF, CR, LS, PS. *)
Definition isLineTerminator (c : N) : bool :=
  (c =? 10) || (c =? 13) || (c =? 8232) || (c =? 8233).

(** WhiteSpace: TAB, VT, FF, ZWNBSP and the Unicode category Zs. *)
Definition isWhiteSpace (c : N) : bool :=
  (c =? 9) || (c =? 11) || (c =? 12) || (c =? 32) || (c =? 160) ||
  (c =? 5760) || ((8192 <=? c) && (c <=? 8202)) || (c =? 8239) ||
  (c =? 8287) || (c =? 12288) || (c =? 65279).

(** What [trim], [Number] and the regular expression class [\s] strip or
    match: WhiteSpace or LineTerminator. *)
Definition isSpace (c : N) : bool := isWhiteSpace c || isLineTerminator c.

(** The class [\d] (no unicode flag): the ten ASCII digits. *)
Definition isDigit (c : N) : bool := (48 <=? c) && (c <=? 57).

(** The class [.] (no [s] flag): anything but a line terminator. *)
Definition isDot (c : N) : bool := negb (isLineTerminator c).

Definition isChar (a : ascii) (c : N) : bool := c =? chr a.

(** ** Regular expressions

    The patterns of the source use only classes, concatenation and
    repetition, all of them anchored at the end of the input, so
    [RegExp.prototype.test] is language membership of a suffix.  Membership
    is decided with Brzozowski derivatives. *)

Inductive regex :=
| Void
| Eps
| Cls (p : N → bool)
| Seq (r1 r2 : regex)
| Alt (r1 r2 : regex)
| Star (r : regex).

Definition Plus (r : regex) : regex := Seq r (Star r).

Inductive matches : regex → jsstring → Prop :=
| m_eps : matches Eps []
| m_cls p c : p c = true → matches (Cls p) [c]
| m_seq r1 r2 s1 s2 :
    matches r1 s1 → matches r2 s2 → matches (Seq r1 r2) (s1 ++ s2)
| m_alt_l r1 r2 s : matches r1 s → matches (Alt r1 r2) s
| m_alt_r r1 r2 s : matches r2 s → matches (Alt r1 r2) s
| m_star_nil r : matches (Star r) []
| m_star_cons r c s1 s2 :
    matches r (c :: s1) → matches (Star r) s2 →
    matches (Star r) (c :: s1 ++ s2).

Fixpoint nullable (r : regex) : bool :=
  match r with
  | Void => false
  | Eps => true
  | Cls _ => false
  | Seq r1 r2 => nullable r1 && nullable r2
  | Alt r1 r2 => nullable r1 || nullable r2
  | Star _ => true
  end.

Fixpoint deriv (c : N) (r : regex) : regex :=
  match r with
  | Void => Void
  | Eps => Void
  | Cls p => if p c then Eps else Void
  | Seq r1 r2 =>
      if nullable r1
      then Alt (Seq (deriv c r1) r2) (deriv c r2)
      else Seq (deriv c r1) r2
  | Alt r1 r2 => Alt (deriv c r1) (deriv c r2)
  | Star r1 => Seq (deriv c r1) (Star r1)
  end.

(** [accepts r s]: the whole of [s] is in the language of [r]. *)
Fixpoint accepts (r : regex) (s : jsstring) : bool :=
  match s with
  | [] => nullable r
  | c :: s' => accepts (deriv c r) s'
  end.

(** ** String built-ins *)

(** [s.split(sep)] for a separator of one code unit: the pieces between
    the occurrences of [sep]; never the empty array. *)
Fixpoint split (sep : N) (s : jsstring) : list jsstring :=
  match s with
  | [] => [[]]
  | c :: s' =>
      if c =? sep then [] :: split sep s'
      else match split sep s' with
           | piece :: pieces => (c :: piece) :: pieces
           | [] => [[c]]
           end
  end.

Fixpoint trimStart (s : jsstring) : jsstring :=
  match s with
  | [] => []
  | c :: s' => if isSpace c then trimStart s' else s
  end.

(** [s.trim()] *)
Definition trim (s : jsstring) : jsstring :=
  rev (trimStart (rev (trimStart s))).

(** [s.replace(/re$/, e)] with [e] the empty string, for a pattern that
    ends with the anchor [$]:
    the leftmost position whose suffix is in the language of [re] is found,
    and the match, which runs to the end of the input, is removed. *)
Fixpoint replaceToEnd (re : regex) (s : jsstring) : jsstring :=
  if accepts re s then []
  else match s with
       | [] => []
       | c :: s' => c :: replaceToEnd re s'
       end.

(** [s.replace(/c/g, e)] with [e] the empty string: every occurrence of
    the code unit goes. *)
Definition replaceAll (c : N) (s : jsstring) : jsstring :=
  List.filter (λ x, negb (x =? c)) s.

(** [s.replace(c, e)] with a string [c] of one code unit and [e] the empty
    string: a string pattern replaces the first occurrence only. *)
Fixpoint replaceFirst (c : N) (s : jsstring) : jsstring :=
  match s with
  | [] => []
  | x :: s' => if x =? c then s' else x :: replaceFirst c s'
  end.

(** ** Numbers

    [Number(s)] is StringToNumber of ECMA-262: the string is trimmed and
    read against the StringNumericLiteral grammar; a string outside the
    grammar gives [NaN], and a literal gives the double nearest to its
    mathematical value, ties to the even significand, or an infinity
    when that value is out of range.

    A finite double is [Finite neg m e], the number [(-1)^neg * m * 2^e],
    in one form only: an integer has [e = 0] (every double from 2^53 on is
    an integer), and any other double has [e < 0] and [m] odd.  [neg] with
    [m = 0] is the negative zero. *)

Inductive jsnum :=
| NaN
| Infinity (neg : bool)
| Finite (neg : bool) (m : N) (e : Z).

(** The number of trailing zero bits of a positive number. *)
Fixpoint trailingZerosPos (p : positive) : N :=
  match p with
  | xO p' => N.succ (trailingZerosPos p')
  | _ => 0
  end.

Definition trailingZeros (n : N) : N :=
  match n with
  | N0 => 0
  | Npos p => trailingZerosPos p
  end.

(** The fraction [num / den] divided by [2^p], as a fraction. *)
Definition scaled (num den : N) (p : Z) : N * N :=
  if (0 <=? p)%Z then (num, den * 2 ^ Z.to_N p)
  else (num * 2 ^ Z.to_N (- p), den).

(** The [k] with [2^k <= num / den < 2^(k+1)], for [num] and [den]
    positive: the difference of the two logarithms, or one less. *)
Definition binaryExponent (num den : N) : Z :=
  let k0 := (Z.of_N (N.log2 num) - Z.of_N (N.log2 den))%Z in
  let '(n, d) := scaled num den k0 in
  if d <=? n then k0 else (k0 - 1)%Z.

(** The integer nearest to [n / d], the even one of two that are equally
    near. *)
Definition roundHalfEven (n d : N) : N :=
  let q := n / d in
  let r := n mod d in
  match 2 * r ?= d with
  | Lt => q
  | Gt => q + 1
  | Eq => if N.even q then q else q + 1
  end.

(** The double [m * 2^p] in its one form. *)
Definition dyadic (neg : bool) (m : N) (p : Z) : jsnum :=
  if (0 <=? p)%Z then Finite neg (m * 2 ^ Z.to_N p) 0
  else if m mod 2 ^ Z.to_N (- p) =? 0
       then Finite neg (m / 2 ^ Z.to_N (- p)) 0
       else Finite neg (m / 2 ^ trailingZeros m)
              (p + Z.of_N (trailingZeros m)).

(** The double nearest to [num / den] ([den] positive), with the sign
    [neg].  The significand has 53 bits, so the last place is
    [2^(k - 52)] for a value in [2^k, 2^(k+1)), and never below [2^-1074];
    the value is rounded to a multiple [m] of that place, and a result of
    [2^1024] or more is an infinity. *)
Definition toDouble (neg : bool) (num den : N) : jsnum :=
  if num =? 0 then Finite neg 0 0
  else
    let k := binaryExponent num den in
    let p := (Z.max k (-1022) - 52)%Z in
    let '(n, d) := scaled num den p in
    let m := roundHalfEven n d in
    if (971 <? p)%Z || ((p =? 971)%Z && (m =? 2 ^ 53)) then Infinity neg
    else dyadic neg m p.

(** The double of the decimal [m * 10^e]. *)
Definition decimalToDouble (neg : bool) (m : N) (e : Z) : jsnum :=
  if (0 <=? e)%Z then toDouble neg (m * 10 ^ Z.to_N e) 1
  else toDouble neg m (10 ^ Z.to_N (- e)).

Arguments toDouble : simpl never.
Arguments decimalToDouble : simpl never.

Definition digitValue (c : N) : N :=
  if isDigit c then c - 48
  else if (97 <=? c) && (c <=? 102) then c - 87
  else c - 55.

(** The value of a numeral in the given radix, most significant digit
    first. *)
Definition digitsValue (radix : N) (ds : jsstring) : N :=
  fold_left (λ acc d, acc * radix + digitValue d) ds 0.

Definition isHexDigit (c : N) : bool :=
  isDigit c || ((97 <=? c) && (c <=? 102)) || ((65 <=? c) && (c <=? 70)).
Definition isOctalDigit (c : N) : bool := (48 <=? c) && (c <=? 55).
Definition isBinaryDigit (c : N) : bool := (48 <=? c) && (c <=? 49).

Definition nonEmpty (s : jsstring) : bool :=
  match s with [] => false | _ => true end.

Fixpoint takeWhile (p : N → bool) (s : jsstring) : jsstring :=
  match s with
  | [] => []
  | c :: s' => if p c then c :: takeWhile p s' else []
  end.

Fixpoint dropWhile (p : N → bool) (s : jsstring) : jsstring :=
  match s with
  | [] => []
  | c :: s' => if p c then dropWhile p s' else s
  end.

(** SignedInteger: the sign, if any, and what follows it. *)
Definition signOf (s : jsstring) : bool * jsstring :=
  match s with
  | c :: s' =>
      if c =? 43 then (false, s')
      else if c =? 45 then (true, s')
      else (false, s)
  | [] => (false, s)
  end.

(** ExponentPart_opt, which must reach the end of the literal. *)
Definition exponentPart (s : jsstring) : option Z :=
  match s with
  | [] => Some 0%Z
  | c :: s' =>
      if (c =? 101) || (c =? 69) then
        let '(neg, ds) := signOf s' in
        if nonEmpty ds && forallb isDigit ds
        then Some (if neg then - Z.of_N (digitsValue 10 ds)
                   else Z.of_N (digitsValue 10 ds))%Z
        else None
      else None
  end.

(** The fraction after the integer part: its digits and what follows. *)
Definition fractionPart (s : jsstring) : jsstring * jsstring :=
  match s with
  | c :: s' =>
      if c =? 46 then (takeWhile isDigit s', dropWhile isDigit s')
      else ([], s)
  | [] => ([], s)
  end.

(** StrUnsignedDecimalLiteral *)
Definition strUnsignedDecimalLiteral (neg : bool) (s : jsstring)
  : option jsnum :=
  if bool_decide (s = str "Infinity") then Some (Infinity neg)
  else
    let ip := takeWhile isDigit s in
    let '(fp, s2) := fractionPart (dropWhile isDigit s) in
    if nonEmpty ip || nonEmpty fp then
      match exponentPart s2 with
      | Some ex =>
          Some (decimalToDouble neg (digitsValue 10 (ip ++ fp))
                  (ex - Z.of_nat (length fp)))
      | None => None
      end
    else None.

(** NonDecimalIntegerLiteral: [0x], [0o] and [0b] numerals, unsigned. *)
Definition nonDecimalIntegerLiteral (s : jsstring) : option jsnum :=
  match s with
  | z :: p :: ds =>
      let numeral radix (isD : N → bool) :=
        if nonEmpty ds && forallb isD ds
        then Some (toDouble false (digitsValue radix ds) 1)
        else None in
      if negb (z =? 48) then None
      else if (p =? 120) || (p =? 88) then numeral 16 isHexDigit
      else if (p =? 111) || (p =? 79) then numeral 8 isOctalDigit
      else if (p =? 98) || (p =? 66) then numeral 2 isBinaryDigit
      else None
  | _ => None
  end.

(** StrNumericLiteral: a non-decimal numeral, or a decimal literal with
    an optional sign. *)
Definition strNumericLiteral (s : jsstring) : option jsnum :=
  match nonDecimalIntegerLiteral s with
  | Some n => Some n
  | None => let '(neg, s') := signOf s in strUnsignedDecimalLiteral neg s'
  end.

(** [Number(s)] for a string [s]. *)
Definition Number (s : jsstring) : jsnum :=
  match trim s with
  | [] => Finite false 0 0
  | t => match strNumericLiteral t with
         | Some n => n
         | None => NaN
         end
  end.

(** ** Array built-ins *)

(** [a[i]]: [undefined] outside the array. *)
Definition index {A} (a : list A) (i : Z) : option A :=
  if (i <? 0)%Z then None else a !! Z.to_nat i.

(** [a.findIndex(p)]: the least index whose element satisfies [p], or
    [-1]. *)
Fixpoint findIndex {A} (p : A → bool) (a : list A) : Z :=
  match a with
  | [] => (-1)%Z
  | x :: a' =>
      if p x then 0%Z
      else let i := findIndex p a' in
           if (i <? 0)%Z then (-1)%Z else (i + 1)%Z
  end.

(** [a.slice(start, end)]: a negative bound counts from the end, and both
    are clamped to the array. *)
Definition slice {A} (a : list A) (start end_ : Z) : list A :=
  let len := Z.of_nat (length a) in
  let clamp i := if (i <? 0)%Z then Z.max (len + i) 0 else Z.min i len in
  let k := clamp start in
  let final := clamp end_ in
  take (Z.to_nat (Z.max (final - k) 0)) (drop (Z.to_nat k) a).

(** ** The result of [parse] *)

Record Ranking := {
  rank : nat;
  rcandidates : list jsnum;    (* the field [candidates] of a ranking *)
}.

Record Ballot := {
  weight : jsnum;
  rankings : list Ranking;
}.

Record Candidate := {
  name : jsstring;
  number : nat;
}.

Record ElectionResult := {
  withdrawnCandidates : list jsnum;
  numberOfCandidates : option jsnum;
  numberOfSeats : option jsnum;
  electionName : option jsstring;
  ballots : list Ballot;
  candidates : gmap nat Candidate;
}.

Inductive exn := TypeError.

Inductive completion (A : Type) :=
| Return (a : A)
| Throw (e : exn).
Arguments Return {A} a.
Arguments Throw {A} e.

(** ** [parse], stage by stage *)

(** [/#.*$/] *)
Definition commentRe : regex :=
  Seq (Cls (isChar "#")) (Star (Cls isDot)).

(** The pattern of the withdrawal line, anchored at both ends: one or more
    groups, each a minus sign, one or more [\d] and any number of [\s]. *)
Definition withdrawnRe : regex :=
  Plus (Seq (Cls (isChar "-")) (Seq (Plus (Cls isDigit)) (Star (Cls isSpace)))).

(** [/^\d+=\d+$/] *)
Definition tieRe : regex :=
  Seq (Plus (Cls isDigit)) (Seq (Cls (isChar "=")) (Plus (Cls isDigit))).

(** The callback of the first [map]:
    the comment is removed, then every straight double quote (code unit
    34), then the line is trimmed. *)
Definition cleanLine (line : jsstring) : jsstring :=
  trim (replaceAll 34 (replaceToEnd commentRe line)).

Definition cleanedLines (bltText : jsstring) : list jsstring :=
  List.filter (λ line, (0 <? length line)%nat)
    (cleanLine <$> split 10 bltText).

(** The argument of [test] is converted to a string: [undefined] becomes
    the string "undefined". *)
Definition isWithdrawnLine (line : option jsstring) : bool :=
  accepts withdrawnRe (default (str "undefined") line).

(** The conditional that defines [withdrawnCandidates]; [shift] removes
    the first line from [theOtherLines], so the array as it is afterwards
    is returned too.  The case of an empty array under a successful test
    does not occur: the test is then made on "undefined", which the
    pattern rejects. *)
Definition takeWithdrawn (theOtherLines : list jsstring)
  : list jsnum * list jsstring :=
  if isWithdrawnLine (index theOtherLines 0) then
    match theOtherLines with
    | line :: shifted =>
        ((λ chars, Number (replaceFirst 45 (trim chars))) <$>
           List.filter (λ chars, (0 <? length (trim chars))%nat)
             (split 32 line),
         shifted)
    | [] => ([], [])
    end
  else ([], theOtherLines).

Definition isEndOfBallots (line : jsstring) : bool :=
  bool_decide (line = str "0").

(** The callback of [reduce], and the object it builds. *)
Definition addCandidate (accumulator : gmap nat Candidate)
    (line : jsstring) (index : nat) : gmap nat Candidate :=
  let candidate := {| name := line; number := index + 1 |} in
  <[number candidate := candidate]> accumulator.

Fixpoint reduceFrom (index : nat) (lines : list jsstring)
    (accumulator : gmap nat Candidate) : gmap nat Candidate :=
  match lines with
  | [] => accumulator
  | line :: lines' =>
      reduceFrom (S index) lines' (addCandidate accumulator line index)
  end.

Definition makeCandidates (candidateLines : list jsstring)
  : gmap nat Candidate :=
  reduceFrom 0 candidateLines ∅.

Definition isTie (ranking : jsstring) : bool := accepts tieRe ranking.
Definition isSkip (ranking : jsstring) : bool :=
  bool_decide (ranking = str "-").

(** The callback of the [map] in [processRankings]. *)
Definition processRanking (index : nat) (ranking : jsstring) : Ranking :=
  let rank := (index + 1)%nat in
  if isTie ranking then
    {| rank := rank; rcandidates := Number <$> split 61 ranking |}
  else if isSkip ranking then
    {| rank := rank; rcandidates := [] |}
  else
    {| rank := rank; rcandidates := [Number ranking] |}.

Definition processRankings (candidateRankings : list jsstring)
  : list Ranking :=
  imap processRanking candidateRankings.

(** [line.split(" ").map(chars => chars.trim())] *)
Definition ballotTokens (line : jsstring) : list jsstring :=
  trim <$> split 32 line.

(** The callback of the [map] over [ballotLines].  An empty token array
    cannot occur, [split] never returns one; there the destructuring
    would leave [weight] undefined, and [Number(undefined)] is [NaN]. *)
Definition makeBallot (line : jsstring) : Ballot :=
  match ballotTokens line with
  | weight :: candidateRankings =>
      {| weight := Number weight;
         rankings :=
           processRankings
             (slice candidateRankings 0
                (Z.of_nat (length candidateRankings) - 1)) |}
  | [] => {| weight := NaN; rankings := processRankings [] |}
  end.

(** [parse(bltText)], one [let] for each constant of the source, in its
    order.  The second [theOtherLines] is the array after the [shift]. *)
Definition parse (bltText : jsstring) : completion ElectionResult :=
  match cleanedLines bltText with
  | [] =>
      (* [firstLine] is undefined and [firstLine.split] throws *)
      Throw TypeError
  | firstLine :: theOtherLines =>
      let header := Number <$> split 32 firstLine in
      let numberOfCandidates := index header 0 in
      let numberOfSeats := index header 1 in
      let '(withdrawnCandidates, theOtherLines) :=
        takeWithdrawn theOtherLines in
      let indexOfEndOfBallots := findIndex isEndOfBallots theOtherLines in
      let ballotLines := slice theOtherLines 0 indexOfEndOfBallots in
      let candidateLines :=
        slice theOtherLines (indexOfEndOfBallots + 1)
          (Z.of_nat (length theOtherLines) - 1) in
      let electionName :=
        index theOtherLines (Z.of_nat (length theOtherLines) - 1) in
      let candidates := makeCandidates candidateLines in
      let ballots := makeBallot <$> ballotLines in
      Return {| withdrawnCandidates := withdrawnCandidates;
                numberOfCandidates := numberOfCandidates;
                numberOfSeats := numberOfSeats;
                electionName := electionName;
                ballots := ballots;
                candidates := candidates |}
  end.

(** ** Definitions for the statements *)

(** What [/^\d+=\d+$/] accepts: two non-empty digit strings joined by one
    equals sign. *)
Definition tieOf (a b : jsstring) (token : jsstring) : Prop :=
  token = a ++ 61 :: b ∧ a ≠ [] ∧ b ≠ [] ∧
  forallb isDigit a = true ∧ forallb isDigit b = true.

(** The constants [ballotLines], [candidateLines] and [electionName] of
    [parse], as functions of [theOtherLines]. *)
Definition ballotLinesOf (theOtherLines : list jsstring) : list jsstring :=
  slice theOtherLines 0 (findIndex isEndOfBallots theOtherLines).

Definition candidateLinesOf (theOtherLines : list jsstring)
  : list jsstring :=
  slice theOtherLines (findIndex isEndOfBallots theOtherLines + 1)
    (Z.of_nat (length theOtherLines) - 1).

Definition electionNameOf (theOtherLines : list jsstring)
  : option jsstring :=
  index theOtherLines (Z.of_nat (length theOtherLines) - 1).

(** The argument of [processRankings] in the ballot callback: the tokens
    of the line without the first and the last. *)
Definition rankingTokens (line : jsstring) : list jsstring :=
  match ballotTokens line with
  | _ :: candidateRankings =>
      slice candidateRankings 0 (Z.of_nat (length candidateRankings) - 1)
  | [] => []
  end.

(** A withdrawal token: a minus sign before a non-empty digit string. *)
Definition isDigits (ds : jsstring) : Prop :=
  ds ≠ [] ∧ forallb isDigit ds = true.

Definition minus (ds : jsstring) : jsstring := 45 :: ds.

(** [spaced tokens line]: the line is the tokens in order, with one space
    or more (U+0020) between two neighbours and nothing else. *)
Inductive spaced : list jsstring → jsstring → Prop :=
| spaced_one token : spaced [token] token
| spaced_cons token (n : nat) tokens line :
    spaced tokens line →
    spaced (token :: tokens) (token ++ replicate (S n) 32 ++ line).

(** The tokens of a line as the description of the format counts them,
    not as the code cuts them: the maximal runs of code units that are not
    white space.  It is there to compare the two.  [run] is the run being
    read, latest code unit first. *)
Fixpoint wordsFrom (run : jsstring) (s : jsstring) : list jsstring :=
  match s with
  | [] => if nonEmpty run then [rev run] else []
  | c :: s' =>
      if isSpace c
      then (if nonEmpty run then rev run :: wordsFrom [] s'
            else wordsFrom [] s')
      else wordsFrom (c :: run) s'
  end.

Definition words (s : jsstring) : list jsstring := wordsFrom [] s.

(** ** Ballot files *)

Definition LF : jsstring := [10].
Definition CR : jsstring := [13].

(** The example of the documentation, some of its ballots left out. *)
Definition gardeningClub : jsstring :=
  str "4 2          # Four candidates are competing for two seats" ++ LF ++
  str "-2           # Bob has withdrawn" ++ LF ++
  str "1 4 1 3 2 0  # First ballot" ++ LF ++
  str "6 4 3 0      # Amy first, Chuck second with a weight of 6" ++ LF ++
  str "1 0          # An empty ballot" ++ LF ++
  str "1 2 - 3 0    # Bob first, no one second, Chuck third" ++ LF ++
  str "1 2=3 1 0    # Bob and Chuck first, Diane second" ++ LF ++
  str "0            # End of ballots marker" ++ LF ++
  [34] ++ str "Diane" ++ [34] ++ str "      # Candidate 1" ++ LF ++
  [34] ++ str "Bob" ++ [34] ++ str "        # Candidate 2" ++ LF ++
  [34] ++ str "Chuck" ++ [34] ++ str "      # Candidate 3" ++ LF ++
  [34] ++ str "Amy" ++ [34] ++ str "        # Candidate 4" ++ LF ++
  [34] ++ str "Gardening Club Election" ++ [34] ++ str "  # Title" ++ LF.

(** A ballot file whose marker line is missing. *)
Definition noMarker : jsstring :=
  str "2 1" ++ LF ++
  str "1 1 2 0" ++ LF ++
  str "1 2 0" ++ LF ++
  [34] ++ str "Ann" ++ [34] ++ LF ++
  [34] ++ str "Bob" ++ [34] ++ LF ++
  [34] ++ str "Club" ++ [34] ++ LF.

(** The ballot "1 2=3 - 1 0" of a small election: its first ranking is
    a tie and its second one is empty. *)
Definition tieAndSkip : jsstring :=
  str "3 1" ++ LF ++
  str "1 2=3 - 1 0" ++ LF ++
  str "0" ++ LF ++
  str "Ann" ++ LF ++ str "Bob" ++ LF ++ str "Cy" ++ LF ++
  str "Club" ++ LF.

Definition tieAndSkipResult : ElectionResult :=
  {| withdrawnCandidates := [];
     numberOfCandidates := Some (Finite false 3 0);
     numberOfSeats := Some (Finite false 1 0);
     electionName := Some (str "Club");
     ballots :=
       [ {| weight := Finite false 1 0;
            rankings :=
              [ {| rank := 1;
                   rcandidates := [Finite false 2 0; Finite false 3 0] |};
                {| rank := 2; rcandidates := [] |};
                {| rank := 3; rcandidates := [Finite false 1 0] |} ] |} ];
     candidates := makeCandidates [str "Ann"; str "Bob"; str "Cy"] |}.

(** A ballot whose line lacks the terminator: the voter ranked candidate
    2, then candidate 3. *)
Definition noTerminator : jsstring :=
  str "3 1" ++ LF ++
  str "1 2 3" ++ LF ++
  str "0" ++ LF ++
  str "Ann" ++ LF ++ str "Bob" ++ LF ++ str "Cy" ++ LF ++
  str "Club" ++ LF.

(** A ballot whose rankings are not all small integers. *)
Definition oddRankings : jsstring :=
  str "4 1" ++ LF ++
  str "1 1.50 abc 9007199254740993 9007199254740993=2 0" ++ LF ++
  str "0" ++ LF ++
  str "Ann" ++ LF ++ str "Bob" ++ LF ++ str "Cy" ++ LF ++ str "Di" ++ LF ++
  str "Club" ++ LF.

(** A ballot typed with two spaces between two of its rankings. *)
Definition extraSpace : jsstring :=
  str "3 1" ++ LF ++
  str "1 2  3 0" ++ LF ++
  str "0" ++ LF ++
  str "Ann" ++ LF ++ str "Bob" ++ LF ++ str "Cy" ++ LF ++
  str "Club" ++ LF.

(** Three second lines that the pattern of the withdrawal line accepts:
    "-0", a number above 2^53, and "-1-2" with no space between its two
    groups. *)
Definition minusZero : jsstring :=
  str "3 1" ++ LF ++
  str "-0" ++ LF ++
  str "1 1 0" ++ LF ++
  str "0" ++ LF ++
  str "Ann" ++ LF ++ str "Bob" ++ LF ++ str "Cy" ++ LF ++
  str "Club" ++ LF.

Definition roundedWithdrawal : jsstring :=
  str "3 1" ++ LF ++
  str "-9007199254740993" ++ LF ++
  str "1 1 0" ++ LF ++
  str "0" ++ LF ++
  str "Ann" ++ LF ++ str "Bob" ++ LF ++ str "Cy" ++ LF ++
  str "Club" ++ LF.

Definition gluedWithdrawals : jsstring :=
  str "3 1" ++ LF ++
  str "-1-2" ++ LF ++
  str "1 1 0" ++ LF ++
  str "0" ++ LF ++
  str "Ann" ++ LF ++ str "Bob" ++ LF ++ str "Cy" ++ LF ++
  str "Club" ++ LF.

(** A withdrawal line of two tokens with two spaces between them. *)
Definition twoWithdrawn : jsstring :=
  str "3 1" ++ LF ++
  str "-1  -3" ++ LF ++
  str "1 2 0" ++ LF ++
  str "0" ++ LF ++
  str "Ann" ++ LF ++ str "Bob" ++ LF ++ str "Cy" ++ LF ++
  str "Club" ++ LF.

(** A ballot file with the line ends of Windows: carriage return, line
    feed. *)
Definition CRLF : jsstring := CR ++ LF.

Definition windowsFile : jsstring :=
  str "1 1" ++ CRLF ++
  str "1 1 0" ++ CRLF ++
  str "0" ++ CRLF ++
  [34] ++ str "Amy" ++ [34] ++ str " # the only one" ++ CRLF ++
  [34] ++ str "Club" ++ [34] ++ CRLF.

(** ** The page around [parse]

    The script keeps three elements of the document: the text area and
    the two elements that show the result or the error.  An element is
    modelled by the list of its children, the text area by its value. *)

Inductive node :=
| Text (data : jsstring)
| Pre (textContent : jsstring).

Record page := {
  bltTextarea : jsstring;        (* [elemBltTextarea.value] *)
  parserResults : list node;     (* children of [elemParserResults] *)
  parserError : list node;       (* children of [elemParserError] *)
  console : list exn;            (* what [console.error] has printed *)
}.

(** The loop of [clearElement]: as long as there is a last child, it is
    removed.  [fuel] bounds the number of turns. *)
Fixpoint clearLoop (fuel : nat) (children : list node) : list node :=
  match fuel with
  | O => children
  | S fuel' =>
      match last children with
      | Some _ => clearLoop fuel' (removelast children)
      | None => children
      end
  end.

(** [clearElement(elem)]; each turn removes one child, so the number of
    children is fuel enough. *)
Definition clearElement (children : list node) : list node :=
  clearLoop (length children) children.

(** The message of the [catch] branch. *)
Definition oops : jsstring :=
  str "Oops! There was an error. Make sure your BLT text is properly formatted. If it is...sry ????".

(** [onInput()].  [stringify] stands for [JSON.stringify(result, null, 2)].
    Setting [textContent] replaces the children by one text node. *)
Definition onInput (stringify : ElectionResult → jsstring) (p : page)
  : page :=
  let error0 := clearElement (parserError p) in
  let results0 := clearElement (parserResults p) in
  if (length (trim (bltTextarea p)) =? 0)%nat then
    {| bltTextarea := bltTextarea p; parserResults := results0;
       parserError := error0; console := console p |}
  else
    match parse (bltTextarea p) with
    | Return result =>
        let elemPre := Pre (stringify result) in
        {| bltTextarea := bltTextarea p;
           parserResults := results0 ++ [elemPre];
           parserError := error0; console := console p |}
    | Throw error =>
        {| bltTextarea := bltTextarea p; parserResults := results0;
           parserError := [Text oops];
           console := console p ++ [error] |}
    end.

(** [pieces.join(sep)] for a separator of one code unit; the statements
    use it to build lines from their tokens. *)
Fixpoint join (sep : N) (pieces : list jsstring) : jsstring :=
  match pieces with
  | [] => []
  | piece :: pieces' =>
      match pieces' with
      | [] => piece
      | _ => piece ++ sep :: join sep pieces'
      end
  end.

(** The alphabet of the withdrawal pattern, and the property that every
    minus sign is followed by a digit. *)
Definition isWithdrawnChar (c : N) : bool :=
  (c =? 45) || isDigit c || isSpace c.

Fixpoint minusThenDigit (s : jsstring) : bool :=
  match s with
  | [] => true
  | c :: s' =>
      (if c =? 45
       then match s' with d :: _ => isDigit d | [] => false end
       else true) && minusThenDigit s'
  end.

(** A token of a line: a non-empty run without white space. *)
Definition isToken (token : jsstring) : Prop :=
  token ≠ [] ∧ forallb (λ c, negb (isSpace c)) token = true.

(** A group of the withdrawal pattern, from its digits and the white
    space after them. *)
Definition withdrawnGroup (group : jsstring * jsstring) : jsstring :=
  45 :: group.1 ++ group.2.

(** * Properties *)

(** ** Correctness of the matcher *)

Lemma matches_seq_inv r1 r2 s :
  matches (Seq r1 r2) s →
  ∃ s1 s2, s = s1 ++ s2 ∧ matches r1 s1 ∧ matches r2 s2.
Proof. inversion 1; subst; eauto. Qed.

Lemma matches_alt_inv r1 r2 s :
  matches (Alt r1 r2) s → matches r1 s ∨ matches r2 s.
Proof. inversion 1; subst; eauto. Qed.

Lemma matches_cls_inv p s :
  matches (Cls p) s → ∃ c, s = [c] ∧ p c = true.
Proof. inversion 1; subst; eauto. Qed.

Lemma matches_star_inv r s :
  matches (Star r) s →
  s = [] ∨ ∃ c s1 s2, s = c :: s1 ++ s2 ∧ matches r (c :: s1) ∧
                      matches (Star r) s2.
Proof. inversion 1; subst; eauto 10. Qed.

Lemma nullable_matches r : nullable r = true ↔ matches r [].
Proof.
  induction r; simpl.
  - split; [done | inversion 1].
  - split; [constructor | done].
  - split; [done | inversion 1].
  - rewrite andb_true_iff, IHr1, IHr2. split.
    + intros [H1 H2]. apply (m_seq _ _ [] []); done.
    + intros (s1 & s2 & E & H1 & H2)%matches_seq_inv.
      symmetry in E. apply app_eq_nil in E as [-> ->]. done.
  - rewrite orb_true_iff, IHr1, IHr2. split.
    + intros [H|H]; [by apply m_alt_l | by apply m_alt_r].
    + apply matches_alt_inv.
  - split; [constructor | done].
Qed.

Lemma matches_star_app r s1 s2 :
  matches r s1 → matches (Star r) s2 → matches (Star r) (s1 ++ s2).
Proof.
  destruct s1 as [|c s1]; [done |]. apply m_star_cons.
Qed.

Lemma deriv_matches r : ∀ c s, matches (deriv c r) s ↔ matches r (c :: s).
Proof.
  induction r; intros c s; simpl.
  - split; inversion 1.
  - split; inversion 1.
  - destruct (p c) eqn:Hp; split.
    + inversion 1; subst. by constructor.
    + intros (c' & [= -> ->] & _)%matches_cls_inv. constructor.
    + inversion 1.
    + intros (c' & [= -> ->] & Hc)%matches_cls_inv. congruence.
  - assert (Hseq : matches (Seq (deriv c r1) r2) s →
                   matches (Seq r1 r2) (c :: s)).
    { intros (s1 & s2 & -> & H1 & H2)%matches_seq_inv.
      apply IHr1 in H1. by apply (m_seq _ _ (c :: s1) s2). }
    assert (Hinv : matches (Seq r1 r2) (c :: s) →
                   matches (Seq (deriv c r1) r2) s ∨
                   (matches r1 [] ∧ matches r2 (c :: s))).
    { intros (s1 & s2 & E & H1 & H2)%matches_seq_inv.
      destruct s1 as [|c1 s1]; simpl in E.
      - right. subst. done.
      - left. injection E as -> ->. apply m_seq; [by apply IHr1 | done]. }
    destruct (nullable r1) eqn:Hn; split.
    + intros [H|H]%matches_alt_inv; [by apply Hseq |].
      apply (m_seq _ _ [] (c :: s)); [by apply nullable_matches | by apply IHr2].
    + intros H. destruct (Hinv H) as [H'|[_ H']].
      * by apply m_alt_l.
      * apply m_alt_r. by apply IHr2.
    + apply Hseq.
    + intros H. destruct (Hinv H) as [H'|[H' _]]; [done |].
      apply nullable_matches in H'. congruence.
  - split.
    + intros [H|H]%matches_alt_inv;
        [apply m_alt_l, IHr1 | apply m_alt_r, IHr2]; done.
    + intros [H|H]%matches_alt_inv;
        [apply m_alt_l, IHr1 | apply m_alt_r, IHr2]; done.
  - split.
    + intros (s1 & s2 & -> & H1 & H2)%matches_seq_inv.
      apply IHr in H1. by apply m_star_cons.
    + intros [?|(c' & s1 & s2 & [= <- ->] & H1 & H2)]%matches_star_inv;
        [done |].
      apply m_seq; [by apply IHr | done].
Qed.

Lemma accepts_matches s : ∀ r, accepts r s = true ↔ matches r s.
Proof.
  induction s as [|c s IH]; intros r; simpl.
  - apply nullable_matches.
  - rewrite IH. apply deriv_matches.
Qed.


(** ** Character classes *)

Ltac class_facts :=
  unfold isSpace, isWhiteSpace, isLineTerminator, isDigit, isDot, isChar, chr
    in *; simpl in *;
  repeat match goal with
         | H : _ && _ = true |- _ => apply andb_true_iff in H as [? ?]
         | H : _ || _ = false |- _ => apply orb_false_iff in H as [? ?]
         | H : negb _ = true |- _ => apply negb_true_iff in H
         | H : negb _ = false |- _ => apply negb_false_iff in H
         | H : (_ =? _) = true |- _ => apply N.eqb_eq in H
         | H : (_ =? _) = false |- _ => apply N.eqb_neq in H
         | H : (_ <=? _) = true |- _ => apply N.leb_le in H
         | H : (_ <=? _) = false |- _ => apply N.leb_gt in H
         end.

Lemma isDigit_cases c :
  isDigit c = true →
  c = 48 ∨ c = 49 ∨ c = 50 ∨ c = 51 ∨ c = 52 ∨ c = 53 ∨ c = 54 ∨ c = 55 ∨
  c = 56 ∨ c = 57.
Proof. intros H. class_facts. lia. Qed.

Ltac digit_cases H :=
  apply isDigit_cases in H;
  repeat (destruct H as [H|H]; [subst; try reflexivity |]);
  subst; try reflexivity.

Lemma digit_not_space c : isDigit c = true → isSpace c = false.
Proof. intros H. digit_cases H. Qed.

Lemma digit_not_char a c :
  isDigit c = true → isDigit (chr a) = false → isChar a c = false.
Proof.
  intros H1 H2. unfold isChar. apply N.eqb_neq. intros ->. congruence.
Qed.

(** ** [split] *)

Lemma split_not_nil sep s : split sep s ≠ [].
Proof.
  destruct s as [|c s]; simpl; [done |].
  destruct (c =? sep); [done |]. destruct (split sep s); done.
Qed.

Lemma split_no_sep sep s :
  forallb (λ c, negb (c =? sep)) s = true → split sep s = [s].
Proof.
  induction s as [|c s IH]; simpl; [done |].
  intros [Hc Hs]%andb_true_iff. apply negb_true_iff in Hc.
  rewrite Hc, IH; done.
Qed.

Lemma split_app_sep sep a b :
  forallb (λ c, negb (c =? sep)) a = true →
  split sep (a ++ sep :: b) = a :: split sep b.
Proof.
  induction a as [|c a IH]; simpl.
  - intros _. rewrite N.eqb_refl. done.
  - intros [Hc Ha]%andb_true_iff. apply negb_true_iff in Hc.
    rewrite Hc, IH; done.
Qed.

(** ** [trim] *)

Lemma trimStart_no_space s :
  forallb (λ c, negb (isSpace c)) s = true → trimStart s = s.
Proof.
  destruct s as [|c s]; simpl; [done |].
  intros [Hc _]%andb_true_iff. apply negb_true_iff in Hc. rewrite Hc. done.
Qed.

Lemma trim_no_space s :
  forallb (λ c, negb (isSpace c)) s = true → trim s = s.
Proof.
  intros H. unfold trim. rewrite (trimStart_no_space s H).
  rewrite trimStart_no_space, rev_involutive; [done |].
  apply forallb_forall. intros c Hc%in_rev.
  by apply (proj1 (forallb_forall _ _) H).
Qed.

Lemma forallb_impl {A} (p q : A → bool) l :
  (∀ x, p x = true → q x = true) → forallb p l = true → forallb q l = true.
Proof.
  intros Hpq. rewrite !forallb_forall. auto.
Qed.

Lemma digits_no_space ds :
  forallb isDigit ds = true → forallb (λ c, negb (isSpace c)) ds = true.
Proof.
  apply forallb_impl. intros c Hc. by rewrite digit_not_space.
Qed.

(** ** Sequences of one class *)

Lemma matches_star_cls p s :
  matches (Star (Cls p)) s ↔ forallb p s = true.
Proof.
  split.
  - induction s as [|c s IH]; [done |].
    intros [?|(c' & s1 & s2 & E & H1 & H2)]%matches_star_inv; [done |].
    apply matches_cls_inv in H1 as (c'' & [= -> ->] & Hp).
    simpl in E. injection E as -> ->. simpl. rewrite Hp. by apply IH.
  - induction s as [|c s IH]; simpl; [constructor |].
    intros [Hc Hs]%andb_true_iff.
    apply (m_star_cons _ c [] s); [by constructor | by apply IH].
Qed.

Lemma matches_plus_cls p s :
  matches (Plus (Cls p)) s ↔ s ≠ [] ∧ forallb p s = true.
Proof.
  unfold Plus. split.
  - intros (s1 & s2 & -> & H1 & H2)%matches_seq_inv.
    apply matches_cls_inv in H1 as (c & -> & Hp).
    apply matches_star_cls in H2. simpl. by rewrite Hp.
  - destruct s as [|c s]; [by intros [] |]. simpl.
    intros [_ [Hc Hs]%andb_true_iff].
    apply (m_seq _ _ [c] s); [by constructor | by apply matches_star_cls].
Qed.

(** ** Tie tokens *)

Lemma isTie_spec token : isTie token = true ↔ ∃ a b, tieOf a b token.
Proof.
  unfold isTie, tieRe, tieOf. rewrite accepts_matches. split.
  - intros (a & s2 & -> & Ha & H2)%matches_seq_inv.
    apply matches_seq_inv in H2 as (e & b & -> & He & Hb).
    apply matches_cls_inv in He as (c & -> & Hc).
    apply N.eqb_eq in Hc as ->.
    apply matches_plus_cls in Ha as [? ?], Hb as [? ?].
    by exists a, b.
  - intros (a & b & -> & Ha & Hb & Hda & Hdb).
    apply m_seq; [by apply matches_plus_cls |].
    apply (m_seq _ _ [61]); [by constructor | by apply matches_plus_cls].
Qed.

Lemma digits_no_char a ds :
  isDigit (chr a) = false → forallb isDigit ds = true →
  forallb (λ c, negb (c =? chr a)) ds = true.
Proof.
  intros Ha. apply forallb_impl. intros c Hc.
  apply negb_true_iff. by apply digit_not_char.
Qed.

(** ** [Number] on a decimal numeral *)

Lemma takeWhile_all p s : forallb p s = true → takeWhile p s = s.
Proof.
  induction s as [|c s IH]; simpl; [done |].
  intros [Hc Hs]%andb_true_iff. rewrite Hc, IH; done.
Qed.

Lemma dropWhile_all p s : forallb p s = true → dropWhile p s = [].
Proof.
  induction s as [|c s IH]; simpl; [done |].
  intros [Hc Hs]%andb_true_iff. rewrite Hc, IH; done.
Qed.

(** ** Rounding to a double *)

Lemma binaryExponent_one n :
  0 < n → binaryExponent n 1 = Z.of_N (N.log2 n).
Proof.
  intros Hn. unfold binaryExponent, scaled.
  change (Z.of_N (N.log2 1)) with 0%Z. rewrite !Z.sub_0_r.
  destruct (Z.leb_spec 0 (Z.of_N (N.log2 n))) as [_|Hneg]; [| lia].
  rewrite N2Z.id, N.mul_1_l.
  destruct (N.leb_spec (2 ^ N.log2 n) n) as [_|Hlt]; [done |].
  pose proof (N.log2_spec n Hn) as [Hle _]. lia.
Qed.

Lemma roundHalfEven_one x : roundHalfEven x 1 = x.
Proof.
  unfold roundHalfEven. rewrite N.div_1_r, N.mod_1_r. done.
Qed.

Lemma roundHalfEven_floor n d : n / d ≤ roundHalfEven n d.
Proof.
  unfold roundHalfEven. destruct (2 * (n mod d) ?= d); [| lia | lia].
  destruct (N.even (n / d)); lia.
Qed.

(** A natural number gives an integer or the positive infinity, never a
    fraction; it gives itself when it is below 2^53, and something
    positive when it is positive. *)
Lemma toDouble_natural neg n :
  (toDouble neg n 1 = Infinity neg ∨
   ∃ v, toDouble neg n 1 = Finite neg v 0 ∧ (0 < n → 0 < v)) ∧
  (n < 2 ^ 53 → toDouble neg n 1 = Finite neg n 0).
Proof.
  unfold toDouble. destruct (N.eqb_spec n 0) as [->|Hn0].
  { split; [right; exists 0; split; [done | lia] | done]. }
  assert (Hn : 0 < n) by lia.
  rewrite binaryExponent_one by done.
  pose proof (N.log2_spec n Hn) as [Hlo Hhi].
  set (a := N.log2 n) in *.
  rewrite Z.max_l by lia. unfold scaled.
  destruct (Z.leb_spec 0 (Z.of_N a - 52)) as [Hp|Hp].
  - (* the last place is a power of two: 52 <= a *)
    replace (Z.to_N (Z.of_N a - 52)) with (a - 52) by lia.
    rewrite N.mul_1_l.
    set (m := roundHalfEven n (2 ^ (a - 52))).
    assert (Hm : 0 < m).
    { pose proof (roundHalfEven_floor n (2 ^ (a - 52))) as Hfl. fold m in Hfl.
      assert (2 ^ (a - 52) ≤ n).
      { etrans; [| exact Hlo]. apply N.pow_le_mono_r; lia. }
      assert (0 < n / 2 ^ (a - 52)).
      { apply N.div_str_pos. split; [| done].
        apply N.neq_0_lt_0, N.pow_nonzero. lia. }
      lia. }
    split.
    + destruct (_ || _); [by left |]. right.
      unfold dyadic. destruct (Z.leb_spec 0 (Z.of_N a - 52)); [| lia].
      replace (Z.to_N (Z.of_N a - 52)) with (a - 52) by lia.
      eexists. split; [done |]. intros _.
      assert (0 < 2 ^ (a - 52)) by (apply N.neq_0_lt_0, N.pow_nonzero; lia).
      nia.
    + intros Hsmall.
      assert (a < 53) by (by apply N.log2_lt_pow2).
      assert (Ha : a = 52) by lia. subst m. rewrite Ha.
      change (2 ^ (52 - 52)) with 1. rewrite roundHalfEven_one.
      unfold dyadic. simpl. by rewrite N.mul_1_r.
  - (* the last place is a fraction: a < 52 *)
    rewrite roundHalfEven_one.
    destruct (Z.ltb_spec 971 (Z.of_N a - 52)) as [?|_]; [lia |].
    destruct (Z.eqb_spec (Z.of_N a - 52) 971) as [?|_]; [lia |].
    simpl orb. cbv iota. unfold dyadic.
    destruct (Z.leb_spec 0 (Z.of_N a - 52)) as [?|_]; [lia |].
    assert (Hpow : 2 ^ Z.to_N (- (Z.of_N a - 52)) ≠ 0)
      by (apply N.pow_nonzero; lia).
    rewrite N.Div0.mod_mul, N.div_mul by done. simpl.
    split; [right; exists n; split; [done | lia] | done].
Qed.

Lemma toDouble_small neg n :
  n < 2 ^ 53 → toDouble neg n 1 = Finite neg n 0.
Proof. apply toDouble_natural. Qed.

Lemma decimalToDouble_zero neg m :
  decimalToDouble neg m 0 = toDouble neg m 1.
Proof.
  unfold decimalToDouble. change (0 <=? 0)%Z with true. cbv iota.
  change (10 ^ Z.to_N 0) with 1. by rewrite N.mul_1_r.
Qed.

(** On a digit string [Number] is the double of the number that the
    digits denote. *)
Lemma Number_digits ds :
  ds ≠ [] → forallb isDigit ds = true →
  Number ds = toDouble false (digitsValue 10 ds) 1.
Proof.
  intros Hne Hd. unfold Number.
  rewrite trim_no_space by by apply digits_no_space.
  destruct ds as [|c ds]; [done |].
  assert (Hc : isDigit c = true) by (simpl in Hd; by destruct (isDigit c)).
  assert (nonDecimalIntegerLiteral (c :: ds) = None) as Hnd.
  { unfold nonDecimalIntegerLiteral. destruct ds as [|p ds]; [done |].
    assert (Hp : isDigit p = true).
    { simpl in Hd. rewrite Hc in Hd. simpl in Hd. by destruct (isDigit p). }
    destruct (negb (c =? 48)); [done |].
    clear Hd. digit_cases Hp. }
  unfold strNumericLiteral. rewrite Hnd.
  assert (signOf (c :: ds) = (false, c :: ds)) as ->.
  { unfold signOf.
    replace (c =? 43) with false by (symmetry; clear Hd Hnd; digit_cases Hc).
    replace (c =? 45) with false by (symmetry; clear Hd Hnd; digit_cases Hc).
    done. }
  unfold strUnsignedDecimalLiteral.
  rewrite bool_decide_eq_false_2.
  2:{ intros [= -> _]. done. }
  rewrite takeWhile_all, dropWhile_all by done. simpl.
  rewrite app_nil_r. apply decimalToDouble_zero.
Qed.

(** Below 2^53 that double is the number itself. *)
Lemma Number_small ds :
  ds ≠ [] → forallb isDigit ds = true →
  digitsValue 10 ds < 2 ^ 53 →
  Number ds = Finite false (digitsValue 10 ds) 0.
Proof.
  intros Hne Hd Hsmall. rewrite Number_digits by done.
  by apply toDouble_small.
Qed.

(** In general it is an integer or the positive infinity, and positive
    when the digits denote a positive number. *)
Lemma Number_natural ds :
  ds ≠ [] → forallb isDigit ds = true →
  Number ds = Infinity false ∨
  ∃ v, Number ds = Finite false v 0 ∧ (0 < digitsValue 10 ds → 0 < v).
Proof.
  intros Hne Hd. rewrite Number_digits by done.
  apply toDouble_natural.
Qed.

(** Three values as the engines give them: a tie between two doubles
    goes to the even one, a number beyond the largest double is an
    infinity, and a decimal fraction is the nearest binary one. *)
Lemma Number_rounds :
  Number (str "9007199254740993") = Finite false 9007199254740992 0 ∧
  Number (49 :: replicate 309 48) = Infinity false ∧
  Number (str "0.1") = Finite false 3602879701896397 (-55).
Proof. repeat split; vm_compute; reflexivity. Qed.

(** ** [findIndex] and [slice] *)

Lemma findIndex_none {A} (p : A → bool) a :
  forallb (λ x, negb (p x)) a = true → findIndex p a = (-1)%Z.
Proof.
  induction a as [|x a IH]; simpl; [done |].
  intros [Hx Ha]%andb_true_iff. apply negb_true_iff in Hx.
  rewrite Hx, IH; done.
Qed.

Lemma findIndex_first {A} (p : A → bool) before x after :
  forallb (λ y, negb (p y)) before = true → p x = true →
  findIndex p (before ++ x :: after) = Z.of_nat (length before).
Proof.
  intros Hb Hx. induction before as [|y before IH]; simpl.
  - by rewrite Hx.
  - simpl in Hb. apply andb_true_iff in Hb as [Hy Hb].
    apply negb_true_iff in Hy. rewrite Hy, IH by done.
    destruct (Z.ltb_spec (Z.of_nat (length before)) 0); lia.
Qed.

Lemma slice_take {A} (a : list A) (n : nat) :
  (n ≤ length a)%nat → slice a 0 (Z.of_nat n) = take n a.
Proof.
  intros Hn. unfold slice. simpl.
  destruct (Z.ltb_spec (Z.of_nat n) 0); [lia |].
  rewrite Z.min_l, Z.min_l by lia. simpl.
  rewrite Z.sub_0_r, Z.max_l, Nat2Z.id by lia. done.
Qed.

(** [a.slice(0, -1)] and [a.slice(0, a.length - 1)]: all but the last
    element. *)
Lemma slice_minus_one {A} (a : list A) :
  slice a 0 (-1) = take (length a - 1)%nat a.
Proof.
  unfold slice. simpl. rewrite Z.min_l by lia. simpl.
  f_equal. lia.
Qed.

Lemma slice_init {A} (a : list A) :
  slice a 0 (Z.of_nat (length a) - 1) = take (length a - 1)%nat a.
Proof.
  destruct a as [|x a]; [done |].
  replace (Z.of_nat (length (x :: a)) - 1)%Z
    with (Z.of_nat (length (x :: a) - 1)%nat) by (simpl; lia).
  apply slice_take. simpl. lia.
Qed.

Lemma slice_between {A} (a : list A) (i : nat) :
  (i < length a)%nat →
  slice a (Z.of_nat i + 1) (Z.of_nat (length a) - 1) =
  take (length a - 1 - (i + 1))%nat (drop (i + 1)%nat a).
Proof.
  intros Hi. unfold slice.
  destruct (Z.ltb_spec (Z.of_nat i + 1) 0); [lia |].
  destruct (Z.ltb_spec (Z.of_nat (length a) - 1) 0); [lia |].
  rewrite !Z.min_l by lia.
  f_equal; [| f_equal]; lia.
Qed.

Lemma take_init_app {A} (a : list A) x :
  take (length (a ++ [x]) - 1)%nat (a ++ [x]) = a.
Proof.
  rewrite length_app. simpl.
  replace (length a + 1 - 1)%nat with (length a) by lia.
  apply take_app_length.
Qed.

(** ** The stages of [parse] *)

(** [parse] returns as soon as one line survives the cleaning, and the
    fields of the result are the constants of its body. *)
Lemma parse_Return bltText firstLine lines :
  cleanedLines bltText = firstLine :: lines →
  parse bltText =
  Return {| withdrawnCandidates := (takeWithdrawn lines).1;
            numberOfCandidates := index (Number <$> split 32 firstLine) 0;
            numberOfSeats := index (Number <$> split 32 firstLine) 1;
            electionName := electionNameOf (takeWithdrawn lines).2;
            ballots := makeBallot <$> ballotLinesOf (takeWithdrawn lines).2;
            candidates :=
              makeCandidates (candidateLinesOf (takeWithdrawn lines).2) |}.
Proof.
  intros H. unfold parse. rewrite H.
  destruct (takeWithdrawn lines) as [withdrawn rest]. done.
Qed.

Lemma electionNameOf_last (theOtherLines : list jsstring) :
  electionNameOf theOtherLines = last theOtherLines.
Proof.
  unfold electionNameOf, index. rewrite last_lookup.
  destruct theOtherLines as [|l ls]; [done |].
  destruct (Z.ltb_spec (Z.of_nat (length (l :: ls)) - 1) 0);
    [simpl in *; lia |].
  f_equal. simpl. lia.
Qed.

Lemma isEndOfBallots_true line : isEndOfBallots line = true ↔ line = str "0".
Proof. unfold isEndOfBallots. apply bool_decide_eq_true. Qed.

Lemma no_marker_forallb (ls : list jsstring) :
  Forall (λ line, line ≠ str "0") ls →
  forallb (λ line, negb (isEndOfBallots line)) ls = true.
Proof.
  intros H. apply forallb_forall. intros line Hin%list_elem_of_In.
  rewrite Forall_forall in H. apply negb_true_iff.
  unfold isEndOfBallots. apply bool_decide_eq_false. by apply H.
Qed.

(** Without a marker line the index is [-1], and both slices are all the
    lines but the last. *)
Lemma no_marker_segments (ls : list jsstring) :
  Forall (λ line, line ≠ str "0") ls →
  ballotLinesOf ls = take (length ls - 1)%nat ls ∧
  candidateLinesOf ls = take (length ls - 1)%nat ls.
Proof.
  intros H%no_marker_forallb. unfold ballotLinesOf, candidateLinesOf.
  rewrite findIndex_none by done. simpl.
  split; [apply slice_minus_one | apply slice_init].
Qed.

(** With a marker the ballots stop before the first one, and the names
    are what follows it, less the last line. *)
Lemma marker_segments (before after : list jsstring) :
  Forall (λ line, line ≠ str "0") before →
  ballotLinesOf (before ++ str "0" :: after) = before ∧
  candidateLinesOf (before ++ str "0" :: after) =
    take (length after - 1)%nat after.
Proof.
  intros H%no_marker_forallb. unfold ballotLinesOf, candidateLinesOf.
  rewrite (findIndex_first _ before (str "0") after) by done.
  split.
  - rewrite slice_take by (rewrite length_app; lia).
    apply take_app_length.
  - rewrite slice_between by (rewrite length_app; simpl; lia).
    replace (length (before ++ str "0" :: after) - 1 - (length before + 1))%nat
      with (length after - 1)%nat by (rewrite length_app; simpl; lia).
    f_equal.
    rewrite (cons_middle (str "0") before after), (assoc_L (++)).
    apply drop_app_length'. rewrite length_app. done.
Qed.

Lemma takeWithdrawn_rest_subset (lines : list jsstring) line :
  line ∈ (takeWithdrawn lines).2 → line ∈ lines.
Proof.
  unfold takeWithdrawn. destruct (isWithdrawnLine _); [| done].
  destruct lines; simpl; [done |]. apply list_elem_of_further.
Qed.

(** ** The candidate table *)

Lemma reduceFrom_lookup (lines : list jsstring) :
  ∀ (i : nat) (acc : gmap nat Candidate) (k : nat),
    reduceFrom i lines acc !! k =
    if decide (i < k ≤ i + length lines)%nat
    then (λ n, {| name := n; number := k |}) <$> lines !! (k - i - 1)%nat
    else acc !! k.
Proof.
  induction lines as [|line lines IH]; intros i acc k; simpl.
  - case_decide; [lia | done].
  - rewrite IH. unfold addCandidate. simpl.
    destruct (decide (k = i + 1)%nat) as [->|Hk].
    + rewrite lookup_insert_eq.
      replace (i + 1 - i - 1)%nat with 0%nat by lia.
      repeat case_decide; try lia. done.
    + rewrite lookup_insert_ne by lia.
      repeat case_decide; try lia; try done.
      replace (k - i - 1)%nat with (S (k - S i - 1)) by lia. done.
Qed.

(** The table maps [k + 1] to the [k]-th name line, and nothing else. *)
Lemma makeCandidates_lookup (candidateLines : list jsstring) (k : nat) :
  makeCandidates candidateLines !! S k =
  (λ n, {| name := n; number := S k |}) <$> candidateLines !! k.
Proof.
  unfold makeCandidates. rewrite reduceFrom_lookup, lookup_empty.
  case_decide as H.
  - f_equal. f_equal. lia.
  - rewrite lookup_ge_None_2 by lia. done.
Qed.

Lemma makeCandidates_zero (candidateLines : list jsstring) :
  makeCandidates candidateLines !! 0%nat = None.
Proof.
  unfold makeCandidates. rewrite reduceFrom_lookup, lookup_empty.
  case_decide; [lia | done].
Qed.

(** ** Ballot lines *)

Lemma makeBallot_rankings line :
  rankings (makeBallot line) = processRankings (rankingTokens line).
Proof.
  unfold makeBallot, rankingTokens. destruct (ballotTokens line); done.
Qed.

Lemma ballotTokens_not_nil line : ballotTokens line ≠ [].
Proof.
  unfold ballotTokens. intros H%fmap_nil_inv. by apply split_not_nil in H.
Qed.

(** The first token is the weight and the last one is dropped, whatever
    it is. *)
Lemma makeBallot_tokens line weight0 middle final :
  ballotTokens line = weight0 :: middle ++ [final] →
  makeBallot line =
  {| weight := Number weight0; rankings := processRankings middle |}.
Proof.
  intros H. unfold makeBallot. rewrite H.
  rewrite slice_init, take_init_app. done.
Qed.

(** A line of one token is a weight and nothing else. *)
Lemma makeBallot_single line weight0 :
  ballotTokens line = [weight0] →
  makeBallot line = {| weight := Number weight0; rankings := [] |}.
Proof. intros H. unfold makeBallot. rewrite H. done. Qed.

Lemma rankingTokens_length line :
  length (rankingTokens line) = (length (ballotTokens line) - 2)%nat.
Proof.
  unfold rankingTokens. destruct (ballotTokens line) as [|w rs]; [done |].
  rewrite slice_init, length_take. simpl. lia.
Qed.

(** ** Rankings *)

Lemma processRankings_lookup candidateRankings (k : nat) :
  processRankings candidateRankings !! k =
  processRanking k <$> candidateRankings !! k.
Proof. apply list_lookup_imap. Qed.

Lemma processRankings_length candidateRankings :
  length (processRankings candidateRankings) = length candidateRankings.
Proof. apply length_imap. Qed.

Lemma processRanking_rank k token : rank (processRanking k token) = (k + 1)%nat.
Proof.
  unfold processRanking. destruct (isTie token), (isSkip token); done.
Qed.

(** The ranks of a ballot are 1, 2, ..., one for each token. *)
Lemma processRankings_ranks candidateRankings :
  rank <$> processRankings candidateRankings =
  seq 1 (length candidateRankings).
Proof.
  apply list_eq. intros k.
  rewrite list_lookup_fmap, processRankings_lookup.
  destruct (candidateRankings !! k) as [token|] eqn:Hk; simpl.
  - rewrite processRanking_rank.
    apply lookup_lt_Some in Hk as Hlt.
    symmetry. rewrite lookup_seq_lt by done. f_equal. lia.
  - apply lookup_ge_None in Hk. symmetry. apply lookup_ge_None.
    rewrite length_seq. done.
Qed.

Lemma isSkip_true token : isSkip token = true ↔ token = str "-".
Proof. unfold isSkip. apply bool_decide_eq_true. Qed.

Lemma processRanking_tie k a b token :
  tieOf a b token →
  processRanking k token =
  {| rank := k + 1; rcandidates := [Number a; Number b] |}.
Proof.
  intros Ht. unfold processRanking.
  rewrite (proj2 (isTie_spec token)) by eauto.
  destruct Ht as (-> & Ha & Hb & Hda & Hdb).
  rewrite (split_app_sep 61 a b) by by apply (digits_no_char "=").
  rewrite (split_no_sep 61 b) by by apply (digits_no_char "=").
  done.
Qed.

Lemma processRanking_skip k :
  processRanking k (str "-") = {| rank := k + 1; rcandidates := [] |}.
Proof. reflexivity. Qed.

Lemma processRanking_single k token :
  isTie token = false → token ≠ str "-" →
  processRanking k token =
  {| rank := k + 1; rcandidates := [Number token] |}.
Proof.
  intros Ht Hs. unfold processRanking. rewrite Ht.
  unfold isSkip. rewrite bool_decide_eq_false_2 by done. done.
Qed.

(** The three shapes of a ranking, by the token it comes from. *)
Lemma processRanking_cases k token :
  (∃ a b, tieOf a b token ∧
     rcandidates (processRanking k token) = [Number a; Number b]) ∨
  (token = str "-" ∧ rcandidates (processRanking k token) = []) ∨
  (isTie token = false ∧ token ≠ str "-" ∧
     rcandidates (processRanking k token) = [Number token]).
Proof.
  destruct (isTie token) eqn:Ht.
  - left. apply isTie_spec in Ht as (a & b & Ht). exists a, b.
    by rewrite (processRanking_tie k a b).
  - destruct (decide (token = str "-")) as [->|Hs].
    + right. left. done.
    + right. right. by rewrite processRanking_single.
Qed.

(** * The claims *)

(** ** Input without lines *)

(** C10: when the cleaning leaves no line at all (a text of blank lines
    and comments only), [parse] returns no result: [firstLine] is
    undefined and the call of its [split] throws a [TypeError]. *)
Theorem parse_no_lines_throws bltText :
  cleanedLines bltText = [] →
  parse bltText = Throw TypeError ∧ ∀ r, parse bltText ≠ Return r.
Proof.
  intros H. unfold parse. rewrite H. done.
Qed.

Lemma parse_no_lines_throws_witness :
  let bltText := str "# just a comment" ++ LF ++ LF ++ str "   # more" in
  cleanedLines bltText = [] ∧
  parse bltText = Throw TypeError ∧ ∀ r, parse bltText ≠ Return r.
Proof.
  split; [vm_compute; reflexivity |].
  apply parse_no_lines_throws. vm_compute. reflexivity.
Defined.

(** ** The end-of-ballots marker *)

(** C1 fails on the code: no line of [noMarker] is the marker, yet [parse]
    returns a result.  The two name lines are read as ballots, the two
    ballot lines as candidate names. *)
Lemma missing_marker_counterexample :
  Forall (λ line, line ≠ str "0") (cleanedLines noMarker) ∧
  parse noMarker =
  Return {| withdrawnCandidates := [];
            numberOfCandidates := Some (Finite false 2 0);
            numberOfSeats := Some (Finite false 1 0);
            electionName := Some (str "Club");
            ballots :=
              [ {| weight := Finite false 1 0;
                   rankings :=
                     [ {| rank := 1; rcandidates := [Finite false 1 0] |};
                       {| rank := 2; rcandidates := [Finite false 2 0] |} ] |};
                {| weight := Finite false 1 0;
                   rankings :=
                     [ {| rank := 1; rcandidates := [Finite false 2 0] |} ] |};
                {| weight := NaN; rankings := [] |};
                {| weight := NaN; rankings := [] |} ];
            candidates :=
              makeCandidates
                [str "1 1 2 0"; str "1 2 0"; str "Ann"; str "Bob"] |} ∧
  ¬ ∃ e, parse noMarker = Throw e.
Proof.
  split; [| split].
  - vm_compute. repeat (constructor; [discriminate |]). constructor.
  - vm_compute. reflexivity.
  - intros [e He]. vm_compute in He. discriminate He.
Qed.

(** C1, amended: without a marker line [parse] does not fail.  The index
    of the marker is [-1], so the ballot lines and the candidate-name
    lines are both all the remaining lines but the last, and the last
    remaining line is the election name. *)
Theorem missing_marker_returns bltText firstLine lines :
  cleanedLines bltText = firstLine :: lines →
  Forall (λ line, line ≠ str "0") (cleanedLines bltText) →
  let rest := (takeWithdrawn lines).2 in
  ∃ r, parse bltText = Return r ∧
       ballots r = makeBallot <$> take (length rest - 1)%nat rest ∧
       candidates r = makeCandidates (take (length rest - 1)%nat rest) ∧
       electionName r = last rest.
Proof.
  intros Hlines Hno rest. rewrite Hlines in Hno.
  assert (Hrest : Forall (λ line, line ≠ str "0") rest).
  { apply Forall_forall. intros line Hin%takeWithdrawn_rest_subset.
    rewrite Forall_forall in Hno. apply Hno. by apply list_elem_of_further. }
  destruct (no_marker_segments rest Hrest) as [Hb Hc].
  eexists. split; [by apply parse_Return |]. simpl.
  fold rest. rewrite Hb, Hc, electionNameOf_last. done.
Qed.

Lemma missing_marker_returns_witness :
  let rest := [str "1 1 2 0"; str "1 2 0"; str "Ann"; str "Bob"; str "Club"] in
  ∃ r, parse noMarker = Return r ∧
       ballots r = makeBallot <$> take 4 rest ∧
       candidates r = makeCandidates (take 4 rest) ∧
       electionName r = last rest.
Proof.
  apply (missing_marker_returns noMarker (str "2 1")
           [str "1 1 2 0"; str "1 2 0"; str "Ann"; str "Bob"; str "Club"]).
  - vm_compute. reflexivity.
  - vm_compute. repeat (constructor; [discriminate |]). constructor.
Defined.

(** C2: when a remaining line is the marker, the first one splits the
    remaining lines: the ballot lines are the lines before it, the
    candidate-name lines are the lines after it less the last line,
    numbered from 1 in order, and the election name is the last of the
    remaining lines. *)
Theorem marker_splits bltText firstLine lines :
  cleanedLines bltText = firstLine :: lines →
  str "0" ∈ (takeWithdrawn lines).2 →
  ∃ before after r,
    (takeWithdrawn lines).2 = before ++ str "0" :: after ∧
    (str "0" ∉ before) ∧
    parse bltText = Return r ∧
    ballots r = makeBallot <$> before ∧
    (∀ k : nat,
       candidates r !! S k =
       (λ n, {| name := n; number := S k |}) <$>
         take (length after - 1)%nat after !! k) ∧
    candidates r !! 0%nat = None ∧
    electionName r = last (before ++ str "0" :: after).
Proof.
  intros Hlines Hin.
  apply list_elem_of_split_l in Hin as (before & after & Hrest & Hnot).
  assert (Hb : Forall (λ line, line ≠ str "0") before).
  { apply Forall_forall. intros line Hl ->. done. }
  destruct (marker_segments before after Hb) as [Hbl Hcl].
  exists before, after. eexists.
  split; [done |]. split; [done |].
  split; [by apply parse_Return |]. simpl.
  rewrite Hrest, Hbl, Hcl, electionNameOf_last.
  split; [done |]. split; [| split; [| done]].
  - intros k. apply makeCandidates_lookup.
  - apply makeCandidates_zero.
Qed.

Lemma marker_splits_witness :
  ∃ before after r,
    (takeWithdrawn (tail (cleanedLines gardeningClub))).2 =
      before ++ str "0" :: after ∧
    (str "0" ∉ before) ∧
    parse gardeningClub = Return r ∧
    ballots r = makeBallot <$> before ∧
    (∀ k : nat,
       candidates r !! S k =
       (λ n, {| name := n; number := S k |}) <$>
         take (length after - 1)%nat after !! k) ∧
    candidates r !! 0%nat = None ∧
    electionName r = last (before ++ str "0" :: after).
Proof.
  apply (marker_splits gardeningClub (str "4 2")).
  - vm_compute. reflexivity.
  - apply list_elem_of_In. vm_compute. tauto.
Defined.

(** ** Where the rankings of a result come from *)

Lemma slice_subseteq {A} (a : list A) start end_ : slice a start end_ ⊆ a.
Proof.
  unfold slice. etrans; [apply subseteq_take | apply subseteq_drop].
Qed.

Lemma parse_Return_inv bltText r :
  parse bltText = Return r →
  ∃ firstLine lines,
    cleanedLines bltText = firstLine :: lines ∧
    ballots r = makeBallot <$> ballotLinesOf (takeWithdrawn lines).2.
Proof.
  destruct (cleanedLines bltText) as [|firstLine lines] eqn:Hlines.
  - unfold parse. rewrite Hlines. done.
  - rewrite (parse_Return _ _ _ Hlines). intros [= <-]. eauto.
Qed.

(** Every ranking of a result is the image of one token of one cleaned
    line: the [k]-th token between the first and the last. *)
Lemma ranking_origin bltText r (i k : nat) b rk :
  parse bltText = Return r →
  ballots r !! i = Some b →
  rankings b !! k = Some rk →
  ∃ line token,
    line ∈ cleanedLines bltText ∧ b = makeBallot line ∧
    rankingTokens line !! k = Some token ∧ rk = processRanking k token.
Proof.
  intros (firstLine & lines & Hlines & Hb)%parse_Return_inv Hi Hk.
  rewrite Hb, list_lookup_fmap in Hi.
  destruct (ballotLinesOf _ !! i) as [line|] eqn:Hline; [| done].
  injection Hi as <-.
  rewrite makeBallot_rankings, processRankings_lookup in Hk.
  destruct (rankingTokens line !! k) as [token|] eqn:Htoken; [| done].
  injection Hk as <-.
  exists line, token. split; [| done].
  rewrite Hlines. apply list_elem_of_further.
  apply takeWithdrawn_rest_subset.
  apply (slice_subseteq _ 0 (findIndex isEndOfBallots (takeWithdrawn lines).2)).
  by apply list_elem_of_lookup_2 in Hline.
Qed.

Lemma digits_not_tie token :
  forallb isDigit token = true → isTie token = false.
Proof.
  intros Hd. apply not_true_is_false.
  intros (a & b & -> & _)%isTie_spec.
  rewrite forallb_app in Hd. apply andb_true_iff in Hd as [_ Hd].
  simpl in Hd. done.
Qed.

(** ** Decoding the ranking tokens *)

(** C3 fails on the code: the value of a ranking is what [Number] reads
    from the token, not always an integer and not always the integer
    written.  On the ballot line of [oddRankings] the token "1.50" gives
    one and a half, "abc" gives [NaN], "9007199254740993" gives
    9007199254740992, and the tie "9007199254740993=2" gives
    9007199254740992 and 2. *)
Lemma ranking_value_counterexample :
  rankingTokens (str "1 1.50 abc 9007199254740993 9007199254740993=2 0") =
    [str "1.50"; str "abc"; str "9007199254740993";
     str "9007199254740993=2"] ∧
  ∃ r, parse oddRankings = Return r ∧
       ballots r =
       [ {| weight := Finite false 1 0;
            rankings :=
              [ {| rank := 1; rcandidates := [Finite false 3 (-1)] |};
                {| rank := 2; rcandidates := [NaN] |};
                {| rank := 3;
                   rcandidates := [Finite false 9007199254740992 0] |};
                {| rank := 4;
                   rcandidates := [Finite false 9007199254740992 0;
                                   Finite false 2 0] |} ] |} ].
Proof.
  split; [vm_compute; reflexivity |].
  eexists. split; vm_compute; reflexivity.
Qed.

(** C3, amended: every ranking token of a ballot line (the tokens
    between the weight and the last one) gives the ranking of its
    position, decoded by the first rule that applies: two digit strings
    joined by an equals sign give what [Number] reads from each, in the
    order written; a lone hyphen gives no candidate; any other token gives
    the one value that [Number] reads from it.  On a digit string [Number]
    is the integer the digits denote when that integer is below 2^53. *)
Theorem ranking_rules line (k : nat) token :
  rankingTokens line !! k = Some token →
  ∃ rk,
    rankings (makeBallot line) !! k = Some rk ∧
    rank rk = (k + 1)%nat ∧
    (∀ a b, tieOf a b token →
       rcandidates rk = [Number a; Number b] ∧
       (digitsValue 10 a < 2 ^ 53 →
          Number a = Finite false (digitsValue 10 a) 0) ∧
       (digitsValue 10 b < 2 ^ 53 →
          Number b = Finite false (digitsValue 10 b) 0)) ∧
    (token = str "-" → rcandidates rk = []) ∧
    ((∀ a b, ¬ tieOf a b token) → token ≠ str "-" →
       rcandidates rk = [Number token]) ∧
    (token ≠ [] → forallb isDigit token = true →
       digitsValue 10 token < 2 ^ 53 →
       rcandidates rk = [Finite false (digitsValue 10 token) 0]).
Proof.
  intros Htoken. exists (processRanking k token).
  rewrite makeBallot_rankings, processRankings_lookup, Htoken.
  split; [done |]. split; [apply processRanking_rank |].
  split; [| split; [| split]].
  - intros a b Ht. rewrite (processRanking_tie k a b) by done.
    destruct Ht as (_ & Ha & Hb & Hda & Hdb).
    split; [done |]. split; intros Hsmall; by apply Number_small.
  - intros ->. done.
  - intros Hnt Hns. rewrite processRanking_single; [done | | done].
    apply not_true_is_false. intros (a & b & Ht)%isTie_spec.
    by apply (Hnt a b).
  - intros Hne Hd Hsmall. rewrite processRanking_single.
    + simpl. by rewrite Number_small.
    + by apply digits_not_tie.
    + intros ->. done.
Qed.

Lemma ranking_rules_witness :
  ∃ rk,
    rankings (makeBallot (str "1 2=3 - 1 0")) !! 0%nat = Some rk ∧
    rank rk = 1%nat ∧
    (∀ a b, tieOf a b (str "2=3") →
       rcandidates rk = [Number a; Number b] ∧
       (digitsValue 10 a < 2 ^ 53 →
          Number a = Finite false (digitsValue 10 a) 0) ∧
       (digitsValue 10 b < 2 ^ 53 →
          Number b = Finite false (digitsValue 10 b) 0)) ∧
    (str "2=3" = str "-" → rcandidates rk = []) ∧
    ((∀ a b, ¬ tieOf a b (str "2=3")) → str "2=3" ≠ str "-" →
       rcandidates rk = [Number (str "2=3")]) ∧
    (str "2=3" ≠ [] → forallb isDigit (str "2=3") = true →
       digitsValue 10 (str "2=3") < 2 ^ 53 →
       rcandidates rk = [Finite false (digitsValue 10 (str "2=3")) 0]).
Proof.
  apply (ranking_rules (str "1 2=3 - 1 0") 0 (str "2=3")).
  vm_compute. reflexivity.
Defined.

(** C4: in a result, a ranking without candidates comes from the token
    that is a lone hyphen, and a ranking of two or more candidates comes
    from a token of two digit strings joined by an equals sign. *)
Theorem empty_and_tied_origin bltText r (i k : nat) b rk :
  parse bltText = Return r →
  ballots r !! i = Some b →
  rankings b !! k = Some rk →
  ∃ line token,
    line ∈ cleanedLines bltText ∧ b = makeBallot line ∧
    rankingTokens line !! k = Some token ∧
    (rcandidates rk = [] → token = str "-") ∧
    ((2 ≤ length (rcandidates rk))%nat →
       ∃ a b, tieOf a b token ∧ 61 ∈ token).
Proof.
  intros Hr Hi Hk.
  destruct (ranking_origin _ _ _ _ _ _ Hr Hi Hk)
    as (line & token & Hline & Hb & Htoken & ->).
  exists line, token. repeat (split; [done |]).
  destruct (processRanking_cases k token)
    as [(a & b' & Ht & ->)|[[-> ->]|(_ & _ & ->)]].
  - split; [done |]. intros _. exists a, b'. split; [done |].
    destruct Ht as (-> & _). set_solver.
  - split; [done |]. simpl. lia.
  - split; [done |]. simpl. lia.
Qed.

Lemma parse_tieAndSkip : parse tieAndSkip = Return tieAndSkipResult.
Proof. vm_compute. reflexivity. Qed.

Lemma empty_and_tied_origin_witness :
  ∃ line token,
    line ∈ cleanedLines tieAndSkip ∧
    makeBallot (str "1 2=3 - 1 0") = makeBallot line ∧
    rankingTokens line !! 1%nat = Some token ∧
    (@nil jsnum = [] → token = str "-") ∧
    ((2 ≤ length (@nil jsnum))%nat → ∃ a b, tieOf a b token ∧ 61 ∈ token).
Proof.
  apply (empty_and_tied_origin tieAndSkip tieAndSkipResult 0 1
           (makeBallot (str "1 2=3 - 1 0"))
           {| rank := 2; rcandidates := [] |}).
  - vm_compute. reflexivity.
  - vm_compute. reflexivity.
  - vm_compute. reflexivity.
Defined.

(** C9: no ranking of a result has more than two candidates. *)
Theorem at_most_two_candidates bltText r (i k : nat) b rk :
  parse bltText = Return r →
  ballots r !! i = Some b →
  rankings b !! k = Some rk →
  (length (rcandidates rk) ≤ 2)%nat.
Proof.
  intros Hr Hi Hk.
  destruct (ranking_origin _ _ _ _ _ _ Hr Hi Hk)
    as (line & token & _ & _ & _ & ->).
  destruct (processRanking_cases k token)
    as [(a & b' & _ & ->)|[[_ ->]|(_ & _ & ->)]]; simpl; lia.
Qed.

Lemma at_most_two_candidates_witness :
  (length [Finite false 2 0; Finite false 3 0] ≤ 2)%nat.
Proof.
  apply (at_most_two_candidates tieAndSkip tieAndSkipResult 0 0
           (makeBallot (str "1 2=3 - 1 0"))
           {| rank := 1;
              rcandidates := [Finite false 2 0; Finite false 3 0] |}).
  - vm_compute. reflexivity.
  - vm_compute. reflexivity.
  - vm_compute. reflexivity.
Defined.

(** ** The last token of a ballot line *)

(** C6 fails on the code: the last token of the ballot line of
    [noTerminator] is "3", not "0", and [parse] returns a result all the
    same, in which the ranking of candidate 3 is lost. *)
Lemma terminator_counterexample :
  last (ballotTokens (str "1 2 3")) = Some (str "3") ∧
  str "3" ≠ str "0" ∧
  parse noTerminator =
  Return {| withdrawnCandidates := [];
            numberOfCandidates := Some (Finite false 3 0);
            numberOfSeats := Some (Finite false 1 0);
            electionName := Some (str "Club");
            ballots :=
              [ {| weight := Finite false 1 0;
                   rankings :=
                     [ {| rank := 1; rcandidates := [Finite false 2 0] |} ]
                |} ];
            candidates := makeCandidates [str "Ann"; str "Bob"; str "Cy"] |} ∧
  ¬ ∃ e, parse noTerminator = Throw e.
Proof.
  split; [vm_compute; reflexivity |].
  split; [vm_compute; discriminate |].
  split; [vm_compute; reflexivity |].
  intros [e He]. vm_compute in He. discriminate He.
Qed.

(** C6, amended: a ballot line never makes [parse] fail.  When the line
    has two tokens or more, the last one is dropped whatever it is, the
    terminator "0" like any other, and gives no ranking: the ballot has the
    weight read from the first token and the rankings of the tokens in
    between. *)
Theorem last_token_dropped bltText firstLine lines :
  cleanedLines bltText = firstLine :: lines →
  ∃ r,
    parse bltText = Return r ∧
    ∀ (i : nat) line weight0 middle final,
      ballotLinesOf (takeWithdrawn lines).2 !! i = Some line →
      ballotTokens line = weight0 :: middle ++ [final] →
      ballots r !! i =
      Some {| weight := Number weight0;
              rankings := processRankings middle |}.
Proof.
  intros Hlines. eexists. split; [by apply parse_Return |]. simpl.
  intros i line weight0 middle final Hline Htokens.
  rewrite list_lookup_fmap, Hline. simpl.
  by rewrite (makeBallot_tokens line weight0 middle final).
Qed.

Lemma last_token_dropped_witness :
  ∃ r,
    parse noTerminator = Return r ∧
    ∀ (i : nat) line weight0 middle final,
      ballotLinesOf
        (takeWithdrawn (tail (cleanedLines noTerminator))).2 !! i =
        Some line →
      ballotTokens line = weight0 :: middle ++ [final] →
      ballots r !! i =
      Some {| weight := Number weight0;
              rankings := processRankings middle |}.
Proof.
  apply (last_token_dropped noTerminator (str "3 1")).
  vm_compute. reflexivity.
Defined.

(** ** Counting the rankings of a ballot *)

(** Between the code and its tokens the count is exact: a ballot has one
    ranking for each piece that [split] cuts at a single space, the first
    and the last piece apart, and their ranks are 1, 2, ... in order. *)
Lemma ballot_rankings_count line :
  length (rankings (makeBallot line)) =
    (length (split 32 line) - 2)%nat ∧
  rank <$> rankings (makeBallot line) =
    seq 1 (length (split 32 line) - 2).
Proof.
  rewrite makeBallot_rankings, processRankings_length, processRankings_ranks.
  rewrite rankingTokens_length. unfold ballotTokens.
  rewrite length_fmap. done.
Qed.

(** C7 at [extraSpace]: the ballot line "1 2  3 0" has the two ranking
    tokens "2" and "3" between its weight and its terminator, and the
    ballot of the result has three rankings; the second one, read from
    the empty piece between the two spaces, ranks a candidate 0. *)
Theorem extra_space_adds_ranking :
  words (str "1 2  3 0") = [str "1"; str "2"; str "3"; str "0"] ∧
  parse extraSpace =
  Return {| withdrawnCandidates := [];
            numberOfCandidates := Some (Finite false 3 0);
            numberOfSeats := Some (Finite false 1 0);
            electionName := Some (str "Club");
            ballots :=
              [ {| weight := Finite false 1 0;
                   rankings :=
                     [ {| rank := 1; rcandidates := [Finite false 2 0] |};
                       {| rank := 2; rcandidates := [Finite false 0 0] |};
                       {| rank := 3; rcandidates := [Finite false 3 0] |} ]
                |} ];
            candidates := makeCandidates [str "Ann"; str "Bob"; str "Cy"] |}.
Proof.
  split; vm_compute; reflexivity.
Qed.

(** ** The withdrawal line *)

Lemma split_spaces (n : nat) s :
  split 32 (replicate n 32 ++ s) = replicate n [] ++ split 32 s.
Proof.
  induction n as [|n IH]; [done |]. simpl. by rewrite IH.
Qed.

Lemma minus_no_space ds :
  isDigits ds → forallb (λ c, negb (isSpace c)) (minus ds) = true.
Proof.
  intros [_ Hd]. simpl. by apply digits_no_space.
Qed.

Lemma minus_no_blank ds :
  isDigits ds → forallb (λ c, negb (c =? 32)) (minus ds) = true.
Proof.
  intros [_ Hd]. simpl. by apply (digits_no_char " ").
Qed.

Lemma keep_minus ds :
  isDigits ds → (0 <? length (trim (minus ds)))%nat = true.
Proof.
  intros H. by rewrite trim_no_space by by apply minus_no_space.
Qed.

Lemma drop_blanks (n : nat) (pieces : list jsstring) :
  List.filter (λ chars, (0 <? length (trim chars))%nat)
    (replicate n [] ++ pieces) =
  List.filter (λ chars, (0 <? length (trim chars))%nat) pieces.
Proof. induction n as [|n IH]; [done |]. simpl. apply IH. Qed.

(** The pieces of a spaced withdrawal line that survive the [filter] are
    its tokens. *)
Lemma spaced_pieces dss line :
  Forall isDigits dss → spaced (minus <$> dss) line →
  List.filter (λ chars, (0 <? length (trim chars))%nat) (split 32 line) =
  minus <$> dss.
Proof.
  intros Hd. revert line. induction Hd as [|ds dss Hds Hdss IH]; intros line.
  - inversion 1.
  - inversion 1 as [token Ht|token n tokens line' Hsp]; subst.
    + destruct dss; [| done].
      rewrite split_no_sep by by apply minus_no_blank.
      simpl List.filter. rewrite keep_minus by done. done.
    + change (replicate (S n) 32) with (32 :: replicate n 32).
      rewrite <- app_comm_cons.
      rewrite split_app_sep by by apply minus_no_blank.
      simpl List.filter. rewrite keep_minus by done.
      rewrite split_spaces, drop_blanks, IH by done. done.
Qed.

Lemma Number_minus ds :
  isDigits ds →
  Number (replaceFirst 45 (trim (minus ds))) = Number ds.
Proof.
  intros H. rewrite trim_no_space by by apply minus_no_space. done.
Qed.

Lemma matches_star_plus r s : matches (Plus r) s → matches (Star r) s.
Proof.
  intros (s1 & s2 & -> & H1 & H2)%matches_seq_inv.
  by apply matches_star_app.
Qed.

Lemma blanks_are_space (n : nat) : forallb isSpace (replicate n 32) = true.
Proof. induction n; done. Qed.

(** One group of the withdrawal pattern: the token and the spaces after
    it. *)
Lemma matches_group ds (n : nat) :
  isDigits ds →
  matches (Seq (Cls (isChar "-")) (Seq (Plus (Cls isDigit)) (Star (Cls isSpace))))
    (minus ds ++ replicate n 32).
Proof.
  intros [Hne Hd]. apply (m_seq _ _ [45] (ds ++ replicate n 32)).
  - by constructor.
  - apply m_seq; [by apply matches_plus_cls |].
    apply matches_star_cls, blanks_are_space.
Qed.

Lemma spaced_accepted dss line :
  Forall isDigits dss → spaced (minus <$> dss) line →
  accepts withdrawnRe line = true.
Proof.
  intros Hd. rewrite accepts_matches. revert line.
  induction Hd as [|ds dss Hds Hdss IH]; intros line.
  - inversion 1.
  - inversion 1 as [token Ht|token n tokens line' Hsp]; subst.
    + replace (minus ds) with ((minus ds ++ replicate 0 32) ++ [])
        by by rewrite !app_nil_r.
      apply m_seq; [by apply matches_group | constructor].
    + rewrite (assoc_L (++)).
      apply m_seq; [by apply matches_group |].
      apply matches_star_plus. by apply IH.
Qed.

Lemma takeWithdrawn_spaced dss line rest :
  Forall isDigits dss → spaced (minus <$> dss) line →
  takeWithdrawn (line :: rest) = (Number <$> dss, rest).
Proof.
  intros Hd Hsp. unfold takeWithdrawn, isWithdrawnLine. simpl.
  rewrite (spaced_accepted dss) by done.
  rewrite (spaced_pieces dss) by done.
  f_equal. rewrite <- list_fmap_compose.
  apply Forall_fmap_ext_1. eapply Forall_impl; [done |].
  intros ds Hds. simpl. by apply Number_minus.
Qed.

(** The string that [test] sees when no line follows the header is not a
    withdrawal line, so [shift] is never called on an empty array. *)
Lemma undefined_not_withdrawn : isWithdrawnLine None = false.
Proof. reflexivity. Qed.

Lemma takeWithdrawn_other lines :
  isWithdrawnLine (index lines 0) = false → takeWithdrawn lines = ([], lines).
Proof. intros H. unfold takeWithdrawn. by rewrite H. Qed.

(** A digit string with a digit other than 0 denotes a positive
    number. *)
Lemma digitsValue_from acc ds :
  forallb isDigit ds = true →
  (0 < acc ∨ ∃ c, c ∈ ds ∧ c ≠ 48) →
  0 < fold_left (λ acc d, acc * 10 + digitValue d) ds acc.
Proof.
  revert acc. induction ds as [|d ds IH]; intros acc Hd Hpos; simpl.
  - destruct Hpos as [?|(c & Hc & _)]; [done |]. by apply elem_of_nil in Hc.
  - simpl in Hd. apply andb_true_iff in Hd as [Hd Hds].
    apply IH; [done |].
    destruct Hpos as [?|(c & [->|Hc]%elem_of_cons & Hne)].
    + left. lia.
    + left. unfold digitValue. rewrite Hd. class_facts. lia.
    + right. eauto.
Qed.

Lemma digitsValue_positive ds :
  forallb isDigit ds = true → (∃ c, c ∈ ds ∧ c ≠ 48) →
  0 < digitsValue 10 ds.
Proof. intros Hd Hc. apply digitsValue_from; auto. Qed.

(** C5 fails on the code.  The line "-0" is consumed (the only ballot is
    the one of "1 1 0") and gives the entry 0, which is not positive; the
    line "-1-2" is consumed too and gives the one entry [NaN].  Whether or
    not these lines count as lines of negative integers, the claim allows
    neither outcome: the list is neither empty nor a list of positive
    numbers.  And the line "-9007199254740993" gives the entry
    9007199254740992, which is not the number written. *)
Lemma withdrawn_counterexample :
  (∃ r, parse minusZero = Return r ∧
        withdrawnCandidates r = [Finite false 0 0] ∧
        ballots r = makeBallot <$> [str "1 1 0"]) ∧
  (∃ r, parse gluedWithdrawals = Return r ∧
        withdrawnCandidates r = [NaN] ∧
        ballots r = makeBallot <$> [str "1 1 0"]) ∧
  (∃ r, parse roundedWithdrawal = Return r ∧
        withdrawnCandidates r = [Finite false 9007199254740992 0] ∧
        ballots r = makeBallot <$> [str "1 1 0"]).
Proof.
  split; [| split]; eexists; (split; [vm_compute; reflexivity |]);
    split; vm_compute; reflexivity.
Qed.

(** C5, amended.  When the line after the header is one token or more
    with spaces between them, each token a minus sign before a digit
    string, the line is consumed and [withdrawnCandidates] lists what
    [Number] reads from the digit strings: the sign is gone, every entry is
    a non-negative integer or the positive infinity, an entry is positive
    unless all its digits are 0, and it is the number that its digits
    denote when that number is below 2^53.  When that line is not accepted
    by the pattern of the withdrawal line, or when no line follows the
    header, [withdrawnCandidates] is empty and every line after the header
    is left for the next stages. *)
Theorem withdrawn_line bltText firstLine lines :
  cleanedLines bltText = firstLine :: lines →
  (∀ line rest dss,
     lines = line :: rest →
     Forall isDigits dss → spaced (minus <$> dss) line →
     ∃ r, parse bltText = Return r ∧
          withdrawnCandidates r = Number <$> dss ∧
          Forall (λ ds,
                    (Number ds = Infinity false ∨
                     ∃ v, Number ds = Finite false v 0 ∧
                          ((∃ c, c ∈ ds ∧ c ≠ 48) → 0 < v)) ∧
                    (digitsValue 10 ds < 2 ^ 53 →
                     Number ds = Finite false (digitsValue 10 ds) 0))
            dss ∧
          ballots r = makeBallot <$> ballotLinesOf rest ∧
          candidates r = makeCandidates (candidateLinesOf rest) ∧
          electionName r = electionNameOf rest) ∧
  (isWithdrawnLine (index lines 0) = false →
     ∃ r, parse bltText = Return r ∧
          withdrawnCandidates r = [] ∧
          ballots r = makeBallot <$> ballotLinesOf lines ∧
          candidates r = makeCandidates (candidateLinesOf lines) ∧
          electionName r = electionNameOf lines).
Proof.
  intros Hlines. split.
  - intros line rest dss -> Hd Hsp.
    eexists. split; [by apply parse_Return |].
    rewrite (takeWithdrawn_spaced dss line rest) by done. simpl.
    split; [done |]. split; [| done].
    eapply Forall_impl; [done |]. intros ds [Hne Hds]. split.
    + destruct (Number_natural ds Hne Hds) as [?|(v & Hv & Hpos)];
        [by left |].
      right. exists v. split; [done |]. intros Hc.
      by apply Hpos, digitsValue_positive.
    + intros Hsmall. by apply Number_small.
  - intros Hno. eexists. split; [by apply parse_Return |].
    rewrite takeWithdrawn_other by done. done.
Qed.

Lemma withdrawn_line_witness :
  (∃ r, parse twoWithdrawn = Return r ∧
        withdrawnCandidates r = [Finite false 1 0; Finite false 3 0] ∧
        ballots r = makeBallot <$> [str "1 2 0"]) ∧
  (∃ r, parse noTerminator = Return r ∧
        withdrawnCandidates r = [] ∧
        ballots r = makeBallot <$> [str "1 2 3"]).
Proof.
  split.
  - destruct (withdrawn_line twoWithdrawn (str "3 1")
                (tail (cleanedLines twoWithdrawn))) as [Hyes _].
    { vm_compute. reflexivity. }
    destruct (Hyes (str "-1  -3")
                [str "1 2 0"; str "0"; str "Ann"; str "Bob"; str "Cy";
                 str "Club"]
                [str "1"; str "3"])
      as (r & Hr & Hw & _ & Hb & _).
    + vm_compute. reflexivity.
    + repeat constructor; discriminate.
    + apply (spaced_cons (minus (str "1")) 1 [minus (str "3")]).
      apply spaced_one.
    + exists r. split; [done |].
      split; [rewrite Hw; vm_compute; reflexivity |].
      rewrite Hb. vm_compute. reflexivity.
  - destruct (withdrawn_line noTerminator (str "3 1")
                (tail (cleanedLines noTerminator))) as [_ Hno].
    { vm_compute. reflexivity. }
    destruct Hno as (r & Hr & Hw & Hb & _).
    + vm_compute. reflexivity.
    + exists r. split; [done |]. split; [done |].
      rewrite Hb. vm_compute. reflexivity.
Defined.

(** ** Comments and quotes *)

Lemma trimStart_subseteq s : trimStart s ⊆ s.
Proof.
  induction s as [|c s IH]; simpl; [done |].
  destruct (isSpace c); [| done]. set_solver.
Qed.

Lemma trim_subseteq s : trim s ⊆ s.
Proof.
  unfold trim. intros c Hc.
  apply list_elem_of_In, in_rev, list_elem_of_In in Hc.
  apply trimStart_subseteq in Hc.
  apply list_elem_of_In, in_rev, list_elem_of_In in Hc.
  by apply trimStart_subseteq.
Qed.

Lemma replaceAll_gone c s : c ∉ replaceAll c s.
Proof.
  unfold replaceAll. intros [_ H]%list_elem_of_In%filter_In.
  by rewrite N.eqb_refl in H.
Qed.

Lemma replaceAll_subseteq c s : replaceAll c s ⊆ s.
Proof.
  unfold replaceAll. intros x [H _]%list_elem_of_In%filter_In.
  by apply list_elem_of_In.
Qed.

(** No cleaned line has a straight double quote. *)
Lemma cleanLine_no_quote line : 34 ∉ cleanLine line.
Proof.
  unfold cleanLine. intros H%trim_subseteq. by apply replaceAll_gone in H.
Qed.

Lemma accepts_comment c s :
  accepts commentRe (c :: s) = (c =? 35) && forallb isDot s.
Proof.
  apply eq_true_iff_eq. rewrite accepts_matches, andb_true_iff.
  unfold commentRe. split.
  - intros (s1 & s2 & E & H1 & H2)%matches_seq_inv.
    apply matches_cls_inv in H1 as (c' & -> & Hc).
    injection E as -> ->. by apply matches_star_cls in H2.
  - intros [Hc Hs]. apply (m_seq _ _ [c] s); [by constructor |].
    by apply matches_star_cls.
Qed.

Lemma replaceToEnd_cons re c s :
  replaceToEnd re (c :: s) =
  if accepts re (c :: s) then [] else c :: replaceToEnd re s.
Proof. reflexivity. Qed.

(** On a line without CR, LS or PS the comment is removed: no number
    sign is left. *)
Lemma replaceToEnd_no_comment line :
  forallb isDot line = true → 35 ∉ replaceToEnd commentRe line.
Proof.
  induction line as [|c line IH].
  - intros _. apply not_elem_of_nil.
  - intros Hd. simpl in Hd. apply andb_true_iff in Hd as [Hc Hline].
    rewrite replaceToEnd_cons, accepts_comment, Hline, andb_true_r.
    destruct (N.eqb_spec c 35) as [->|Hne]; [apply not_elem_of_nil |].
    apply not_elem_of_cons. split; [done | by apply IH].
Qed.

Lemma cleanLine_no_comment line :
  forallb isDot line = true → 35 ∉ cleanLine line.
Proof.
  intros Hd. unfold cleanLine. intros H%trim_subseteq%replaceAll_subseteq.
  by apply (replaceToEnd_no_comment line).
Qed.

(** What precedes the first number sign is kept as it is. *)
Lemma replaceToEnd_comment before after :
  35 ∉ before → forallb isDot after = true →
  replaceToEnd commentRe (before ++ 35 :: after) = before.
Proof.
  intros Hb Ha. induction before as [|c before IH].
  - simpl app. rewrite replaceToEnd_cons, accepts_comment, Ha. done.
  - apply not_elem_of_cons in Hb as [Hc Hb].
    simpl app. rewrite replaceToEnd_cons, accepts_comment.
    destruct (N.eqb_spec c 35) as [Heq|Hne]; [congruence |].
    simpl. by rewrite IH.
Qed.

Lemma split_pieces sep s piece :
  piece ∈ split sep s → piece ⊆ s ∧ (sep ∉ piece).
Proof.
  revert piece. induction s as [|c s IH]; intros piece; simpl.
  - intros ->%list_elem_of_singleton. split; [done | apply not_elem_of_nil].
  - destruct (N.eqb_spec c sep) as [->|Hne].
    + intros [->|H]%elem_of_cons.
      * split; [apply list_subseteq_nil | apply not_elem_of_nil].
      * apply IH in H as [Hsub Hsep]. split; [| done].
        intros x Hx. right. by apply Hsub.
    + destruct (split sep s) as [|first pieces] eqn:Hs.
      { by apply split_not_nil in Hs. }
      intros [->|H]%elem_of_cons.
      * destruct (IH first) as [Hsub Hsep]; [left |].
        split; [| by apply not_elem_of_cons].
        intros x [->|Hx]%elem_of_cons; [left | right; by apply Hsub].
      * destruct (IH piece) as [Hsub Hsep]; [by right |].
        split; [| done]. intros x Hx. right. by apply Hsub.
Qed.

(** In a text without carriage return, line separator or paragraph
    separator, no cleaned line holds a number sign or a straight double
    quote: the lines are cut at the line feeds, so nothing stops the
    pattern of comments. *)
Lemma cleanedLines_clean bltText line :
  Forall (λ c, c ≠ 13 ∧ c ≠ 8232 ∧ c ≠ 8233) bltText →
  line ∈ cleanedLines bltText →
  (35 ∉ line) ∧ (34 ∉ line).
Proof.
  intros Hno Hin. unfold cleanedLines in Hin.
  apply list_elem_of_In, filter_In in Hin as [Hin _].
  apply list_elem_of_In, list_elem_of_fmap in Hin as (piece & -> & Hpiece).
  apply split_pieces in Hpiece as [Hsub Hlf].
  split; [| apply cleanLine_no_quote].
  apply cleanLine_no_comment, forallb_forall.
  intros c Hc%list_elem_of_In.
  rewrite Forall_forall in Hno. destruct (Hno c) as (? & ? & ?); [auto |].
  assert (c ≠ 10) by (intros ->; done).
  unfold isDot, isLineTerminator.
  repeat match goal with
         | H : c ≠ ?n |- _ => apply N.eqb_neq in H; rewrite H; clear H
         end.
  done.
Qed.

(** C8 at [windowsFile]: every source line ends with a carriage return,
    which the class [.] does not match, so the pattern of comments, whose
    match must run to the end of the line, finds nothing to remove;
    [trim] then removes the carriage return only.  The name of candidate 1
    keeps the number sign and the text after it.  A line separator
    (U+2028) after the comment has the same effect. *)
Theorem comment_kept_before_carriage_return :
  cleanedLines windowsFile =
    [str "1 1"; str "1 1 0"; str "0"; str "Amy # the only one";
     str "Club"] ∧
  (∃ r, parse windowsFile = Return r ∧
        candidates r !! 1%nat =
          Some {| name := str "Amy # the only one"; number := 1 |} ∧
        electionName r = Some (str "Club")) ∧
  35 ∈ str "Amy # the only one" ∧
  cleanLine ([34] ++ str "Amy" ++ [34] ++ str " # the only one" ++ [8232]) =
    str "Amy # the only one".
Proof.
  split; [vm_compute; reflexivity |].
  split; [| split].
  - eexists. split; [vm_compute; reflexivity |].
    split; vm_compute; reflexivity.
  - apply list_elem_of_In. vm_compute. tauto.
  - vm_compute. reflexivity.
Qed.

(** * Further properties of the code *)

(** ** The cleaned lines *)

Lemma trimStart_head s c :
  head (trimStart s) = Some c → isSpace c = false.
Proof.
  induction s as [|x s IH]; simpl; [done |].
  destruct (isSpace x) eqn:Hx; [done |]. simpl. by intros [= <-].
Qed.

(** What [trim] cuts off at the end is white space. *)
Lemma trimEnd_split x :
  ∃ w, x = rev (trimStart (rev x)) ++ w ∧ forallb isSpace w = true.
Proof.
  induction x as [|c x IH] using rev_ind.
  - by exists [].
  - rewrite rev_app_distr. simpl.
    destruct (isSpace c) eqn:Hc.
    + destruct IH as (w & Hx & Hw). exists (w ++ [c]). split.
      * rewrite (assoc_L (++)). by rewrite <- Hx.
      * rewrite forallb_app, Hw. simpl. by rewrite Hc.
    + exists []. simpl. rewrite rev_involutive, app_nil_r. done.
Qed.

Lemma last_rev_head {A} (x : list A) : last (rev x) = head x.
Proof. destruct x as [|c x]; [done |]. simpl. apply last_snoc. Qed.

Lemma trim_last s c : last (trim s) = Some c → isSpace c = false.
Proof. unfold trim. rewrite last_rev_head. apply trimStart_head. Qed.

Lemma trim_head s c : head (trim s) = Some c → isSpace c = false.
Proof.
  unfold trim. destruct (trimEnd_split (trimStart s)) as (w & Hs & Hw).
  intros Hh. apply (trimStart_head s).
  rewrite Hs. destruct (rev (trimStart (rev (trimStart s)))); [done |].
  done.
Qed.

Lemma cleanedLines_elem bltText line :
  line ∈ cleanedLines bltText ↔
  line ≠ [] ∧ ∃ piece, piece ∈ split 10 bltText ∧ line = cleanLine piece.
Proof.
  unfold cleanedLines.
  rewrite list_elem_of_In, filter_In, <- list_elem_of_In, list_elem_of_fmap.
  split.
  - intros [(piece & -> & Hp) Hlen]. split; [| eauto].
    intros Hnil. rewrite Hnil in Hlen. done.
  - intros [Hne (piece & Hp & ->)]. split; [eauto |].
    destruct (cleanLine piece); done.
Qed.

(** Every cleaned line is non-empty, free of straight double quotes, and
    begins and ends with a code unit that is not white space. *)
Theorem cleaned_line_shape bltText line :
  line ∈ cleanedLines bltText →
  line ≠ [] ∧ (34 ∉ line) ∧
  (∃ c, head line = Some c ∧ isSpace c = false) ∧
  (∃ c, last line = Some c ∧ isSpace c = false).
Proof.
  intros (Hne & piece & _ & ->)%cleanedLines_elem.
  split; [done |]. split; [apply cleanLine_no_quote |].
  unfold cleanLine in *. split.
  - destruct (head (trim _)) as [c|] eqn:Hh.
    + exists c. split; [done |]. by apply trim_head in Hh.
    + by apply head_None in Hh.
  - destruct (last (trim _)) as [c|] eqn:Hl.
    + exists c. split; [done |]. by apply trim_last in Hl.
    + by apply last_None in Hl.
Qed.

Lemma cleaned_line_shape_witness :
  str "Gardening Club Election" ≠ [] ∧
  (34 ∉ str "Gardening Club Election") ∧
  (∃ c, head (str "Gardening Club Election") = Some c ∧ isSpace c = false) ∧
  (∃ c, last (str "Gardening Club Election") = Some c ∧ isSpace c = false).
Proof.
  apply (cleaned_line_shape gardeningClub).
  apply list_elem_of_In. vm_compute. tauto.
Defined.

(** The cleaning works line by line: the cleaned lines of two texts
    joined by a line feed are those of the first, then those of the
    second. *)
Lemma split_app sep s1 s2 :
  split sep (s1 ++ sep :: s2) = split sep s1 ++ split sep s2.
Proof.
  induction s1 as [|c s1 IH]; simpl.
  - by rewrite N.eqb_refl.
  - destruct (c =? sep); [by rewrite IH |].
    rewrite IH. destruct (split sep s1) eqn:Hs; [| done].
    by apply split_not_nil in Hs.
Qed.

Theorem cleanedLines_app bltText1 bltText2 :
  cleanedLines (bltText1 ++ LF ++ bltText2) =
  cleanedLines bltText1 ++ cleanedLines bltText2.
Proof.
  unfold cleanedLines, LF. simpl.
  rewrite split_app, fmap_app. apply List.filter_app.
Qed.

Lemma cleanedLines_app_aux bltText1 bltText2 :
  cleanedLines (bltText1 ++ LF ++ bltText2) =
  cleanedLines bltText1 ++ cleanedLines bltText2.
Proof.
  unfold cleanedLines, LF. simpl.
  rewrite split_app, fmap_app. apply List.filter_app.
Qed.

(** ** Comments and blank lines *)

Lemma parse_same_lines bltText1 bltText2 :
  cleanedLines bltText1 = cleanedLines bltText2 →
  parse bltText1 = parse bltText2.
Proof. intros H. unfold parse. by rewrite H. Qed.

Lemma trimStart_spaces w : forallb isSpace w = true → trimStart w = [].
Proof.
  induction w as [|c w IH]; simpl; [done |].
  intros [Hc Hw]%andb_true_iff. rewrite Hc. by apply IH.
Qed.

Lemma trim_spaces w : forallb isSpace w = true → trim w = [].
Proof. intros H. unfold trim. rewrite (trimStart_spaces w) by done. reflexivity. Qed.

Lemma replaceAll_absent c s : c ∉ s → replaceAll c s = s.
Proof.
  induction s as [|x s IH]; [done |].
  intros [Hx Hs]%not_elem_of_cons. unfold replaceAll in *. simpl.
  destruct (N.eqb_spec x c) as [->|_]; [done |]. simpl. by rewrite IH.
Qed.

Lemma space_not_char a w :
  isSpace (chr a) = false → forallb isSpace w = true → chr a ∉ w.
Proof.
  intros Ha Hw Hin%list_elem_of_In.
  rewrite forallb_forall in Hw. apply Hw in Hin. congruence.
Qed.

Lemma replaceToEnd_no_hash s : 35 ∉ s → replaceToEnd commentRe s = s.
Proof.
  induction s as [|c s IH]; [done |].
  intros [Hc Hs]%not_elem_of_cons.
  rewrite replaceToEnd_cons, accepts_comment.
  destruct (N.eqb_spec c 35) as [->|_]; [done |]. simpl. by rewrite IH.
Qed.

(** A line of white space, with or without a comment after it, is
    cleaned to the empty line. *)
Lemma cleanLine_blank ws : forallb isSpace ws = true → cleanLine ws = [].
Proof.
  intros Hws. unfold cleanLine.
  rewrite replaceToEnd_no_hash by by apply (space_not_char "#").
  assert (Hq : 34 ∉ ws).
  { intros Hin%list_elem_of_In.
    rewrite forallb_forall in Hws. by apply Hws in Hin. }
  rewrite replaceAll_absent by done. by apply trim_spaces.
Qed.

Lemma cleanLine_comment body c :
  35 ∉ body → forallb isDot c = true →
  cleanLine (body ++ 35 :: c) = cleanLine body.
Proof.
  intros Hb Hc. unfold cleanLine.
  rewrite replaceToEnd_comment, replaceToEnd_no_hash by done. done.
Qed.

(** A source line that is cleaned to the empty line leaves no trace. *)
Lemma cleanedLines_drop bltText1 line bltText2 :
  10 ∉ line → cleanLine line = [] →
  cleanedLines (bltText1 ++ LF ++ line ++ LF ++ bltText2) =
  cleanedLines (bltText1 ++ LF ++ bltText2).
Proof.
  intros Hlf Hclean. rewrite !cleanedLines_app_aux. f_equal.
  rewrite <- (app_nil_l (cleanedLines bltText2)) at 2. f_equal.
  unfold cleanedLines. rewrite split_no_sep.
  - simpl. by rewrite Hclean.
  - apply forallb_forall. intros c Hc%list_elem_of_In.
    apply negb_true_iff, N.eqb_neq. intros ->. done.
Qed.

Lemma cleanedLines_swap bltText1 line line' bltText2 :
  10 ∉ line → 10 ∉ line' → cleanLine line = cleanLine line' →
  cleanedLines (bltText1 ++ LF ++ line ++ LF ++ bltText2) =
  cleanedLines (bltText1 ++ LF ++ line' ++ LF ++ bltText2).
Proof.
  intros Hlf Hlf' Hclean. rewrite !cleanedLines_app_aux. f_equal. f_equal.
  assert (Hno : ∀ l : jsstring, 10 ∉ l →
            forallb (λ c, negb (c =? 10)) l = true).
  { intros l Hl. apply forallb_forall. intros c Hc%list_elem_of_In.
    apply negb_true_iff, N.eqb_neq. intros ->. done. }
  unfold cleanedLines. rewrite !split_no_sep by auto.
  simpl. by rewrite Hclean.
Qed.

(** A line that holds only a comment, and a blank line, can be added
    anywhere between two lines without changing what [parse] does,
    provided the comment has no carriage return, line separator or
    paragraph separator. *)
Theorem comment_line_ignored bltText1 ws c bltText2 :
  forallb isSpace ws = true → 10 ∉ ws → forallb isDot c = true →
  parse (bltText1 ++ LF ++ (ws ++ 35 :: c) ++ LF ++ bltText2) =
    parse (bltText1 ++ LF ++ bltText2) ∧
  parse (bltText1 ++ LF ++ ws ++ LF ++ bltText2) =
    parse (bltText1 ++ LF ++ bltText2).
Proof.
  intros Hws Hlf Hc.
  assert (H35 : 35 ∉ ws) by by apply (space_not_char "#").
  split; apply parse_same_lines, cleanedLines_drop.
  - intros [Hin|[[=]|Hin]%elem_of_cons]%elem_of_app; [done |].
    apply list_elem_of_In in Hin.
    rewrite forallb_forall in Hc. apply Hc in Hin. done.
  - rewrite cleanLine_comment by done. by apply cleanLine_blank.
  - done.
  - by apply cleanLine_blank.
Qed.

(** A code unit is not in a given string. *)
Ltac absent :=
  let H := fresh in
  intros H%list_elem_of_In; vm_compute in H;
  repeat (destruct H as [H|H]; [discriminate H |]); exact H.

Lemma comment_line_ignored_witness :
  parse (str "3 1" ++ LF ++ (str "  " ++ 35 :: str " just a comment") ++
         LF ++ str "0") =
    parse (str "3 1" ++ LF ++ str "0") ∧
  parse (str "3 1" ++ LF ++ str "  " ++ LF ++ str "0") =
    parse (str "3 1" ++ LF ++ str "0").
Proof.
  apply (comment_line_ignored (str "3 1") (str "  ")
           (str " just a comment") (str "0")).
  - vm_compute. reflexivity.
  - absent.
  - vm_compute. reflexivity.
Defined.

(** A comment at the end of a line is ignored: the line is read as
    what stands before the number sign, provided the comment has no
    carriage return, line separator or paragraph separator. *)
Theorem trailing_comment_ignored bltText1 body c bltText2 :
  35 ∉ body → 10 ∉ body → forallb isDot c = true →
  parse (bltText1 ++ LF ++ (body ++ 35 :: c) ++ LF ++ bltText2) =
  parse (bltText1 ++ LF ++ body ++ LF ++ bltText2).
Proof.
  intros H35 H10 Hc. apply parse_same_lines, cleanedLines_swap.
  - intros [Hin|[[=]|Hin]%elem_of_cons]%elem_of_app; [done |].
    apply list_elem_of_In in Hin.
    rewrite forallb_forall in Hc. apply Hc in Hin. done.
  - done.
  - by apply cleanLine_comment.
Qed.

Lemma trailing_comment_ignored_witness :
  parse (str "3 1" ++ LF ++ (str "1 2 0  " ++ 35 :: str " a ballot") ++
         LF ++ str "0") =
  parse (str "3 1" ++ LF ++ str "1 2 0  " ++ LF ++ str "0").
Proof.
  apply (trailing_comment_ignored (str "3 1") (str "1 2 0  ")
           (str " a ballot") (str "0")).
  - absent.
  - absent.
  - vm_compute. reflexivity.
Defined.

(** ** The fields of a result *)

(** All the fields of a result, from the cleaned lines. *)
Lemma parse_Return_fields bltText r :
  parse bltText = Return r →
  ∃ firstLine lines,
    cleanedLines bltText = firstLine :: lines ∧
    withdrawnCandidates r = (takeWithdrawn lines).1 ∧
    numberOfCandidates r = index (Number <$> split 32 firstLine) 0 ∧
    numberOfSeats r = index (Number <$> split 32 firstLine) 1 ∧
    electionName r = electionNameOf (takeWithdrawn lines).2 ∧
    ballots r = makeBallot <$> ballotLinesOf (takeWithdrawn lines).2 ∧
    candidates r = makeCandidates (candidateLinesOf (takeWithdrawn lines).2).
Proof.
  destruct (cleanedLines bltText) as [|firstLine lines] eqn:Hlines.
  - unfold parse. rewrite Hlines. done.
  - rewrite (parse_Return _ _ _ Hlines). intros [= <-].
    exists firstLine, lines. done.
Qed.

Lemma makeCandidates_Some (candidateLines : list jsstring) (k : nat) c :
  makeCandidates candidateLines !! k = Some c →
  (1 ≤ k ≤ length candidateLines)%nat ∧ number c = k ∧
  candidateLines !! (k - 1)%nat = Some (name c).
Proof.
  destruct k as [|k]; [by rewrite makeCandidates_zero |].
  rewrite makeCandidates_lookup.
  destruct (candidateLines !! k) as [n|] eqn:Hk; [| done].
  intros [= <-]. simpl. apply lookup_lt_Some in Hk as Hlt.
  replace (k - 0)%nat with k by lia. split; [lia | done].
Qed.

Lemma takeWithdrawn_rest_suffix (lines : list jsstring) :
  (takeWithdrawn lines).2 = lines ∨
  ∃ line, lines = line :: (takeWithdrawn lines).2.
Proof.
  unfold takeWithdrawn. destruct (isWithdrawnLine _); [| by left].
  destruct lines as [|line lines]; [by left |]. right. by exists line.
Qed.

(** The strings of a result, the election name and the names of the
    candidates, are cleaned lines of the text: none is empty, none has a
    straight double quote, and none has a number sign when the text has no
    carriage return, line separator or paragraph separator. *)
Theorem result_strings bltText r s :
  parse bltText = Return r →
  electionName r = Some s ∨ (∃ (k : nat) c, candidates r !! k = Some c ∧
                                            name c = s) →
  s ∈ cleanedLines bltText ∧ s ≠ [] ∧ (34 ∉ s) ∧
  (Forall (λ c, c ≠ 13 ∧ c ≠ 8232 ∧ c ≠ 8233) bltText → 35 ∉ s).
Proof.
  intros (firstLine & lines & Hlines & _ & _ & _ & He & _ & Hc)
    %parse_Return_fields Hs.
  assert (Hin : s ∈ cleanedLines bltText).
  { rewrite Hlines. apply list_elem_of_further, takeWithdrawn_rest_subset.
    destruct Hs as [Hs|(k & c & Hk & <-)].
    - rewrite He, electionNameOf_last in Hs.
      by apply last_Some_elem_of.
    - rewrite Hc in Hk. apply makeCandidates_Some in Hk as (_ & _ & Hk).
      apply list_elem_of_lookup_2 in Hk.
      by apply slice_subseteq in Hk. }
  split; [done |].
  apply cleanedLines_elem in Hin as Hshape. destruct Hshape as [Hne _].
  split; [done |]. split.
  - apply cleanedLines_elem in Hin as (_ & piece & _ & ->).
    apply cleanLine_no_quote.
  - intros Hno. by destruct (cleanedLines_clean bltText s Hno Hin).
Qed.

Lemma result_strings_witness :
  str "Club" ∈ cleanedLines tieAndSkip ∧ str "Club" ≠ [] ∧
  (34 ∉ str "Club") ∧
  (Forall (λ c, c ≠ 13 ∧ c ≠ 8232 ∧ c ≠ 8233) tieAndSkip →
   35 ∉ str "Club").
Proof.
  apply (result_strings tieAndSkip tieAndSkipResult (str "Club")).
  - vm_compute. reflexivity.
  - left. vm_compute. reflexivity.
Defined.

(** The table of candidates has the keys 1, 2, ..., n without a gap,
    where n is the number of candidate-name lines; the candidate under a
    key has that key as its number. *)
Lemma makeCandidates_dom (candidateLines : list jsstring) :
  dom (makeCandidates candidateLines) =
  (set_seq 1 (length candidateLines) : gset nat).
Proof.
  apply set_eq. intros k. rewrite elem_of_dom, elem_of_set_seq.
  destruct k as [|k].
  - rewrite makeCandidates_zero. split; [by intros [? ?] | lia].
  - rewrite makeCandidates_lookup, fmap_is_Some, lookup_lt_is_Some. lia.
Qed.

Theorem candidates_dense bltText r :
  parse bltText = Return r →
  ∃ n : nat,
    size (candidates r) = n ∧
    (∀ k : nat, is_Some (candidates r !! k) ↔ (1 ≤ k ≤ n)%nat) ∧
    (∀ (k : nat) c, candidates r !! k = Some c → number c = k).
Proof.
  intros (firstLine & lines & _ & _ & _ & _ & _ & _ & ->)%parse_Return_fields.
  set (names := candidateLinesOf _). exists (length names).
  split; [| split].
  - rewrite <- size_dom, makeCandidates_dom. apply size_set_seq.
  - intros k. rewrite <- elem_of_dom, makeCandidates_dom, elem_of_set_seq.
    lia.
  - intros k c Hk. by apply makeCandidates_Some in Hk as (_ & ? & _).
Qed.

Lemma candidates_dense_witness :
  ∃ n : nat,
    size (candidates tieAndSkipResult) = n ∧
    (∀ k : nat, is_Some (candidates tieAndSkipResult !! k) ↔ (1 ≤ k ≤ n)%nat) ∧
    (∀ (k : nat) c, candidates tieAndSkipResult !! k = Some c → number c = k).
Proof.
  apply (candidates_dense tieAndSkip). vm_compute. reflexivity.
Defined.

(** The election name is the last cleaned line of the text, whenever a
    line is left after the header and the withdrawal line; when none is
    left, the election name is undefined. *)
Theorem electionName_last bltText firstLine lines :
  cleanedLines bltText = firstLine :: lines →
  ∃ r, parse bltText = Return r ∧
       ((takeWithdrawn lines).2 ≠ [] →
        electionName r = last (cleanedLines bltText)) ∧
       ((takeWithdrawn lines).2 = [] → electionName r = None).
Proof.
  intros Hlines. eexists. split; [by apply parse_Return |]. simpl.
  rewrite electionNameOf_last, Hlines. split.
  - intros Hne.
    destruct (takeWithdrawn_rest_suffix lines) as [->|[line Hl]].
    + destruct lines; [done |]. by rewrite last_cons_cons.
    + rewrite Hl at 2.
      destruct (takeWithdrawn lines).2 as [|x rest]; [done |].
      by rewrite !last_cons_cons.
  - intros ->. done.
Qed.

Lemma electionName_last_witness :
  ∃ r, parse tieAndSkip = Return r ∧
       ((takeWithdrawn (tail (cleanedLines tieAndSkip))).2 ≠ [] →
        electionName r = last (cleanedLines tieAndSkip)) ∧
       ((takeWithdrawn (tail (cleanedLines tieAndSkip))).2 = [] →
        electionName r = None).
Proof.
  apply (electionName_last tieAndSkip (str "3 1")). vm_compute. reflexivity.
Defined.

(** In every ballot of a result the ranks are 1, 2, ..., k in order, k
    being the number of its rankings. *)
Theorem ballot_ranks bltText r (i : nat) b :
  parse bltText = Return r →
  ballots r !! i = Some b →
  rank <$> rankings b = seq 1 (length (rankings b)).
Proof.
  intros (firstLine & lines & _ & _ & _ & _ & _ & Hb & _)%parse_Return_fields.
  rewrite Hb, list_lookup_fmap.
  destruct (ballotLinesOf _ !! i) as [line|]; [| done].
  intros [= <-].
  by rewrite makeBallot_rankings, processRankings_ranks,
    processRankings_length.
Qed.

Lemma ballot_ranks_witness :
  rank <$> rankings (makeBallot (str "1 2=3 - 1 0")) =
  seq 1 (length (rankings (makeBallot (str "1 2=3 - 1 0")))).
Proof.
  apply (ballot_ranks tieAndSkip tieAndSkipResult 0).
  - vm_compute. reflexivity.
  - vm_compute. reflexivity.
Defined.

(** When the first marker is the last of the remaining lines, the
    result has no candidate and its election name is the marker "0". *)
Theorem marker_last bltText firstLine lines before :
  cleanedLines bltText = firstLine :: lines →
  (takeWithdrawn lines).2 = before ++ [str "0"] →
  str "0" ∉ before →
  ∃ r, parse bltText = Return r ∧
       ballots r = makeBallot <$> before ∧
       candidates r = ∅ ∧
       electionName r = Some (str "0").
Proof.
  intros Hlines Hrest Hnot.
  assert (Hb : Forall (λ line, line ≠ str "0") before).
  { apply Forall_forall. intros line Hl ->. done. }
  destruct (marker_segments before [] Hb) as [Hbl Hcl].
  eexists. split; [by apply parse_Return |]. simpl.
  rewrite Hrest, Hbl, Hcl, electionNameOf_last, last_snoc. done.
Qed.

Lemma marker_last_witness :
  ∃ r, parse (str "3 1" ++ LF ++ str "1 2 0" ++ LF ++ str "0") = Return r ∧
       ballots r = makeBallot <$> [str "1 2 0"] ∧
       candidates r = ∅ ∧
       electionName r = Some (str "0").
Proof.
  apply (marker_last _ (str "3 1") [str "1 2 0"; str "0"] [str "1 2 0"]).
  - vm_compute. reflexivity.
  - vm_compute. reflexivity.
  - intros H%list_elem_of_In. vm_compute in H.
    destruct H as [H|H]; [discriminate H | exact H].
Defined.

(** ** The header *)

Lemma split_second sep s :
  split sep s !! 1%nat = None ↔ sep ∉ s.
Proof.
  split.
  - intros Hnone Hin.
    apply list_elem_of_split_l in Hin as (a & b & -> & Ha).
    rewrite split_app_sep in Hnone.
    + destruct (split sep b) eqn:Hb; [by apply split_not_nil in Hb | done].
    + apply forallb_forall. intros c Hc%list_elem_of_In.
      apply negb_true_iff, N.eqb_neq. intros ->. done.
  - intros Hnot. rewrite split_no_sep; [done |].
    apply forallb_forall. intros c Hc%list_elem_of_In.
    apply negb_true_iff, N.eqb_neq. intros ->. done.
Qed.

(** The two numbers of the header.  The candidate count is always
    defined; the seat count is undefined exactly when the first line has
    no space; a first line of two digit strings with one space between
    them gives what [Number] reads from each, which is the integer that
    the digits denote when that integer is below 2^53. *)
Theorem header_numbers bltText firstLine lines :
  cleanedLines bltText = firstLine :: lines →
  ∃ r, parse bltText = Return r ∧
       is_Some (numberOfCandidates r) ∧
       (numberOfSeats r = None ↔ 32 ∉ firstLine) ∧
       (∀ a b, firstLine = a ++ 32 :: b → isDigits a → isDigits b →
          numberOfCandidates r = Some (Number a) ∧
          numberOfSeats r = Some (Number b) ∧
          (digitsValue 10 a < 2 ^ 53 →
             numberOfCandidates r =
               Some (Finite false (digitsValue 10 a) 0)) ∧
          (digitsValue 10 b < 2 ^ 53 →
             numberOfSeats r = Some (Finite false (digitsValue 10 b) 0))).
Proof.
  intros Hlines. eexists. split; [by apply parse_Return |]. simpl.
  unfold index. simpl. rewrite !list_lookup_fmap.
  split; [| split].
  - destruct (split 32 firstLine) eqn:Hs; [by apply split_not_nil in Hs |].
    simpl. eauto.
  - rewrite fmap_None. apply split_second.
  - intros a b -> [Hna Hda] [Hnb Hdb].
    rewrite split_app_sep by by apply (digits_no_char " ").
    rewrite (split_no_sep 32 b) by by apply (digits_no_char " ").
    simpl. split; [done |]. split; [done |].
    split; intros Hsmall; by rewrite Number_small.
Qed.

Lemma header_numbers_witness :
  ∃ r, parse tieAndSkip = Return r ∧
       is_Some (numberOfCandidates r) ∧
       (numberOfSeats r = None ↔ 32 ∉ str "3 1") ∧
       (∀ a b, str "3 1" = a ++ 32 :: b → isDigits a → isDigits b →
          numberOfCandidates r = Some (Number a) ∧
          numberOfSeats r = Some (Number b) ∧
          (digitsValue 10 a < 2 ^ 53 →
             numberOfCandidates r =
               Some (Finite false (digitsValue 10 a) 0)) ∧
          (digitsValue 10 b < 2 ^ 53 →
             numberOfSeats r = Some (Finite false (digitsValue 10 b) 0))).
Proof.
  apply (header_numbers tieAndSkip (str "3 1")
           (tail (cleanedLines tieAndSkip))).
  vm_compute. reflexivity.
Defined.

(** A second space after the first number of the header makes the seat
    count 0, whatever follows: the second piece of the line is the empty
    string, which [Number] reads as 0. *)
Theorem header_second_space bltText firstLine lines a b :
  cleanedLines bltText = firstLine :: lines →
  firstLine = a ++ 32 :: 32 :: b →
  32 ∉ a →
  ∃ r, parse bltText = Return r ∧
       numberOfCandidates r = Some (Number a) ∧
       numberOfSeats r = Some (Finite false 0 0).
Proof.
  intros Hlines -> Ha. eexists. split; [by apply parse_Return |]. simpl.
  rewrite split_app_sep.
  - simpl. done.
  - apply forallb_forall. intros c Hc%list_elem_of_In.
    apply negb_true_iff, N.eqb_neq. intros ->. done.
Qed.

Lemma header_second_space_witness :
  ∃ r, parse (str "4  2" ++ LF ++ str "0") = Return r ∧
       numberOfCandidates r = Some (Number (str "4")) ∧
       numberOfSeats r = Some (Finite false 0 0).
Proof.
  apply (header_second_space _ (str "4  2") [str "0"] (str "4") (str "2")).
  - vm_compute. reflexivity.
  - vm_compute. reflexivity.
  - intros H%list_elem_of_In. vm_compute in H.
    destruct H as [H|H]; [discriminate H | exact H].
Defined.

(** ** The entries of [withdrawnCandidates] *)

Lemma matches_star_ind (P : jsstring → Prop) r :
  P [] →
  (∀ s1 s2, matches r s1 → P s2 → P (s1 ++ s2)) →
  ∀ s, matches (Star r) s → P s.
Proof.
  intros Hnil Happ s Hs. remember (Star r) as r' eqn:Hr.
  induction Hs; try discriminate Hr.
  - done.
  - injection Hr as ->. apply (Happ (c :: s1) s2); auto.
Qed.

Lemma minusThenDigit_tail c s :
  minusThenDigit (c :: s) = true → minusThenDigit s = true.
Proof. simpl. by intros [_ H]%andb_true_iff. Qed.

Lemma minusThenDigit_app s1 s2 :
  minusThenDigit s1 = true → minusThenDigit s2 = true →
  minusThenDigit (s1 ++ s2) = true.
Proof.
  intros H1 H2. induction s1 as [|c s1 IH]; [done |].
  simpl in H1. apply andb_true_iff in H1 as [Hc H1].
  simpl. rewrite IH by done. rewrite andb_true_r.
  destruct (c =? 45); [| done]. destruct s1; done.
Qed.

Lemma minusThenDigit_plain s :
  forallb (λ c, negb (c =? 45)) s = true → minusThenDigit s = true.
Proof.
  induction s as [|c s IH]; [done |]. simpl.
  intros [Hc Hs]%andb_true_iff. apply negb_true_iff in Hc.
  rewrite Hc, IH; done.
Qed.

Lemma spaces_no_char a w :
  isSpace (chr a) = false → forallb isSpace w = true →
  forallb (λ c, negb (c =? chr a)) w = true.
Proof.
  intros Ha. apply forallb_impl. intros c Hc.
  apply negb_true_iff, N.eqb_neq. intros ->. congruence.
Qed.

(** The strings of the withdrawal pattern are made of minus signs, digits
    and white space, and each minus sign has a digit after it. *)
Lemma withdrawn_group_shape g :
  matches (Seq (Cls (isChar "-"))
             (Seq (Plus (Cls isDigit)) (Star (Cls isSpace)))) g →
  forallb isWithdrawnChar g = true ∧ minusThenDigit g = true.
Proof.
  intros (m & s2 & -> & Hm & H2)%matches_seq_inv.
  apply matches_seq_inv in H2 as (ds & ws & -> & Hds & Hws).
  apply matches_cls_inv in Hm as (c & -> & Hc). apply N.eqb_eq in Hc as ->.
  apply matches_plus_cls in Hds as [Hne Hds].
  apply matches_star_cls in Hws.
  split.
  - simpl. rewrite forallb_app. apply andb_true_iff. split.
    + revert Hds. apply forallb_impl. intros c Hc.
      unfold isWithdrawnChar. rewrite Hc. by destruct (c =? 45).
    + revert Hws. apply forallb_impl. intros c Hc.
      unfold isWithdrawnChar. rewrite Hc. by rewrite !orb_true_r.
  - change ([chr "-"] ++ ds ++ ws) with (45 :: (ds ++ ws)).
    simpl. apply andb_true_iff. split.
    + destruct ds as [|d ds]; [done |]. simpl in *.
      by apply andb_true_iff in Hds as [? _].
    + apply minusThenDigit_app; apply minusThenDigit_plain.
      * by apply (digits_no_char "-").
      * by apply (spaces_no_char "-").
Qed.

Lemma withdrawn_line_shape line :
  accepts withdrawnRe line = true →
  forallb isWithdrawnChar line = true ∧ minusThenDigit line = true.
Proof.
  rewrite accepts_matches. unfold withdrawnRe.
  intros H%matches_star_plus. revert line H.
  apply matches_star_ind; [done |].
  intros s1 s2 [Hc1 Hm1]%withdrawn_group_shape [Hc2 Hm2].
  rewrite forallb_app, Hc1, Hc2. split; [done |].
  by apply minusThenDigit_app.
Qed.

(** The two properties pass from a line to its pieces and through
    [trim]. *)
Lemma split_cons sep c s :
  split sep (c :: s) =
  if c =? sep then [] :: split sep s
  else match split sep s with
       | piece :: pieces => (c :: piece) :: pieces
       | [] => [[c]]
       end.
Proof. reflexivity. Qed.

Lemma split_first_head sep d s :
  (d =? sep) = false → ∃ first pieces, split sep (d :: s) = (d :: first) :: pieces.
Proof.
  intros Hd. rewrite split_cons, Hd.
  destruct (split sep s) as [|first pieces] eqn:Hs; eauto.
Qed.

Lemma minusThenDigit_pieces s :
  minusThenDigit s = true →
  ∀ piece, piece ∈ split 32 s → minusThenDigit piece = true.
Proof.
  induction s as [|c s IH]; intros Hm piece.
  - simpl. by intros ->%list_elem_of_singleton.
  - pose proof (minusThenDigit_tail _ _ Hm) as Hs.
    simpl in Hm. apply andb_true_iff in Hm as [Hc _].
    rewrite split_cons. destruct (N.eqb_spec c 32) as [->|Hne].
    + intros [->|Hin]%elem_of_cons; [done | by apply IH].
    + destruct (split 32 s) as [|first pieces] eqn:Hsplit.
      { by apply split_not_nil in Hsplit. }
      intros [->|Hin]%elem_of_cons.
      * simpl. rewrite (IH Hs first) by (try rewrite Hsplit; left).
        rewrite andb_true_r.
        destruct (c =? 45); [| done].
        destruct s as [|d s]; [done |].
        destruct (split_first_head 32 d s) as (f & ps & Hf).
        { apply N.eqb_neq. intros ->. done. }
        rewrite Hf in Hsplit. injection Hsplit as <- _. done.
      * apply IH; [done |]. try rewrite Hsplit. by right.
Qed.

Lemma trimStart_split s :
  ∃ w, s = w ++ trimStart s ∧ forallb isSpace w = true.
Proof.
  induction s as [|c s IH]; [by exists [] |]. simpl.
  destruct (isSpace c) eqn:Hc.
  - destruct IH as (w & Hs & Hw). exists (c :: w). simpl.
    rewrite Hc, Hw. split; [by rewrite <- Hs | done].
  - by exists [].
Qed.

Lemma minusThenDigit_suffix w s :
  minusThenDigit (w ++ s) = true → minusThenDigit s = true.
Proof.
  induction w as [|c w IH]; [done |]. simpl.
  intros H%minusThenDigit_tail. by apply IH.
Qed.

Lemma minusThenDigit_prefix s w :
  forallb isSpace w = true →
  minusThenDigit (s ++ w) = true → minusThenDigit s = true.
Proof.
  intros Hw. induction s as [|c s IH]; [done |]. simpl.
  intros [Hc Hs]%andb_true_iff. rewrite IH by done. rewrite andb_true_r.
  destruct (c =? 45); [| done].
  destruct s as [|d s]; [| done]. simpl in Hc.
  destruct w as [|x w]; [done |]. simpl in Hw.
  apply andb_true_iff in Hw as [Hx _].
  by rewrite digit_not_space in Hx.
Qed.

Lemma trim_shape s :
  forallb isWithdrawnChar s = true → minusThenDigit s = true →
  forallb isWithdrawnChar (trim s) = true ∧ minusThenDigit (trim s) = true.
Proof.
  intros Hc Hm.
  destruct (trimStart_split s) as (w1 & Hs1 & Hw1).
  destruct (trimEnd_split (trimStart s)) as (w2 & Hs2 & Hw2).
  fold (trim s) in Hs2. rewrite Hs2 in Hs1. rewrite Hs1 in Hc, Hm.
  rewrite !forallb_app in Hc.
  apply andb_true_iff in Hc as [_ [Hc _]%andb_true_iff].
  split; [done |].
  apply minusThenDigit_suffix in Hm. by apply minusThenDigit_prefix in Hm.
Qed.

Lemma replaceFirst_chars (p : N → bool) c s :
  forallb p s = true → forallb p (replaceFirst c s) = true.
Proof.
  induction s as [|x s IH]; [done |]. simpl.
  intros [Hx Hs]%andb_true_iff.
  destruct (x =? c); [done |]. simpl. rewrite Hx. by apply IH.
Qed.

(** Without its first minus sign, a trimmed piece begins with a
    digit. *)
Lemma replaceFirst_head t :
  forallb isWithdrawnChar t = true → minusThenDigit t = true →
  (∀ c, head t = Some c → isSpace c = false) →
  replaceFirst 45 t = [] ∨
  ∃ d rest, replaceFirst 45 t = d :: rest ∧ isDigit d = true.
Proof.
  intros Hc Hm Hh. destruct t as [|c t]; [by left |].
  specialize (Hh c eq_refl). simpl in Hc, Hm |- *.
  apply andb_true_iff in Hc as [Hc _].
  apply andb_true_iff in Hm as [Hm _].
  destruct (N.eqb_spec c 45) as [->|Hne].
  - destruct t as [|d t]; [done |]. right. by exists d, t.
  - right. exists c, (replaceFirst 45 t). split; [done |].
    unfold isWithdrawnChar in Hc. rewrite Hh, orb_false_r in Hc.
    apply orb_true_iff in Hc as [Hc|Hc]; [| done].
    by apply N.eqb_eq in Hc.
Qed.

Ltac not_withdrawn_char Hc :=
  match goal with
  | |- context [?c =? ?k] =>
      destruct (N.eqb_spec c k) as [->|_];
      [vm_compute in Hc; discriminate Hc |]
  end.

Lemma dropWhile_head p s c r : dropWhile p s = c :: r → p c = false.
Proof.
  induction s as [|x s IH]; [done |]. simpl.
  destruct (p x) eqn:Hx; [done |]. by intros [= <- _].
Qed.

Lemma dropWhile_chars (q p : N → bool) s :
  forallb q s = true → forallb q (dropWhile p s) = true.
Proof.
  induction s as [|x s IH]; [done |]. simpl.
  intros [Hx Hs]%andb_true_iff. destruct (p x); [by apply IH |].
  simpl. by rewrite Hx, Hs.
Qed.

Lemma nonDecimal_withdrawn t :
  forallb isWithdrawnChar t = true → nonDecimalIntegerLiteral t = None.
Proof.
  destruct t as [|z [|p ds]]; [done | done |]. simpl.
  intros [_ [Hp _]%andb_true_iff]%andb_true_iff.
  destruct (negb (z =? 48)); [done |].
  repeat not_withdrawn_char Hp. done.
Qed.

(** [Number] on a string of the withdrawal alphabet that begins with a
    digit: a natural number, or [NaN]. *)
Lemma strNumericLiteral_withdrawn d t :
  isDigit d = true → forallb isWithdrawnChar (d :: t) = true →
  strNumericLiteral (d :: t) = None ∨
  ∃ n, strNumericLiteral (d :: t) = Some (toDouble false n 1).
Proof.
  intros Hd Hc. unfold strNumericLiteral.
  rewrite nonDecimal_withdrawn by done.
  assert (signOf (d :: t) = (false, d :: t)) as ->.
  { unfold signOf. clear Hc.
    replace (d =? 43) with false by (symmetry; digit_cases Hd).
    replace (d =? 45) with false by (symmetry; digit_cases Hd). done. }
  unfold strUnsignedDecimalLiteral.
  rewrite bool_decide_eq_false_2.
  2:{ intros [= -> _]. done. }
  pose proof (dropWhile_chars isWithdrawnChar isDigit _ Hc) as Hrest.
  destruct (dropWhile isDigit (d :: t)) as [|c rest] eqn:Hdrop.
  - simpl fractionPart. cbv iota. simpl takeWhile. rewrite Hd.
    simpl. rewrite decimalToDouble_zero. right. eauto.
  - apply dropWhile_head in Hdrop as Hnd.
    simpl in Hrest. apply andb_true_iff in Hrest as [Hcc _].
    unfold fractionPart. not_withdrawn_char Hcc.
    simpl takeWhile. rewrite Hd. simpl.
    repeat not_withdrawn_char Hcc. simpl. by left.
Qed.

Lemma Number_withdrawn q :
  forallb isWithdrawnChar q = true →
  (q = [] ∨ ∃ d rest, q = d :: rest ∧ isDigit d = true) →
  Number q = NaN ∨ Number q = Infinity false ∨
  ∃ v, Number q = Finite false v 0.
Proof.
  intros Hc [->|(d & rest & -> & Hd)]; [right; right; by exists 0 |].
  unfold Number.
  assert (Ht : ∃ t, trim (d :: rest) = d :: t ∧
                    forallb isWithdrawnChar (d :: t) = true).
  { unfold trim. simpl trimStart at 2.
    rewrite (digit_not_space d Hd).
    destruct (trimEnd_split (d :: rest)) as (w & Hs & Hw).
    destruct (rev (trimStart (rev (d :: rest)))) as [|x t] eqn:Ht.
    - simpl in Hs. subst w. simpl in Hw.
      apply andb_true_iff in Hw as [Hw _].
      by rewrite digit_not_space in Hw.
    - simpl in Hs. injection Hs as <- Hrest. exists t. split; [done |].
      rewrite Hrest in Hc. simpl in Hc |- *.
      apply andb_true_iff in Hc as [Hx Hc]. rewrite Hx.
      rewrite forallb_app in Hc. by apply andb_true_iff in Hc as [? _]. }
  destruct Ht as (t & -> & Hct).
  destruct (strNumericLiteral_withdrawn d t Hd Hct) as [->|[n ->]];
    [by left | right].
  destruct (proj1 (toDouble_natural false n)) as [->|(v & -> & _)];
    [by left | right; by exists v].
Qed.

(** Whatever the withdrawal line, no entry of [withdrawnCandidates] is
    negative and none is a fraction: each is a natural number, the
    positive infinity or [NaN]. *)
Theorem withdrawn_entries bltText r n :
  parse bltText = Return r →
  n ∈ withdrawnCandidates r →
  n = NaN ∨ n = Infinity false ∨ ∃ v, n = Finite false v 0.
Proof.
  intros (firstLine & lines & _ & Hw & _)%parse_Return_fields. rewrite Hw.
  unfold takeWithdrawn.
  destruct (isWithdrawnLine (index lines 0)) eqn:Hre; [| by intros ?%elem_of_nil].
  destruct lines as [|line lines]; [by intros ?%elem_of_nil |].
  unfold isWithdrawnLine in Hre. simpl in Hre |- *.
  apply withdrawn_line_shape in Hre as [Hc Hm].
  intros (chars & -> & Hin)%list_elem_of_fmap.
  apply list_elem_of_In, filter_In in Hin as [Hin _].
  apply list_elem_of_In in Hin.
  assert (Hpc : forallb isWithdrawnChar chars = true).
  { apply split_pieces in Hin as [Hsub _].
    apply forallb_forall. intros c Hcin%list_elem_of_In%Hsub%list_elem_of_In.
    by apply (proj1 (forallb_forall _ _) Hc). }
  pose proof (minusThenDigit_pieces line Hm chars Hin) as Hpm.
  destruct (trim_shape chars Hpc Hpm) as [Htc Htm].
  apply Number_withdrawn.
  - by apply replaceFirst_chars.
  - apply replaceFirst_head; [done | done |]. apply trim_head.
Qed.

Lemma withdrawn_entries_witness :
  Finite false 2 0 = NaN ∨ Finite false 2 0 = Infinity false ∨
  ∃ v, Finite false 2 0 = Finite false v 0.
Proof.
  apply (withdrawn_entries gardeningClub
           (match parse gardeningClub with
            | Return r => r
            | Throw _ => tieAndSkipResult
            end)).
  - vm_compute. reflexivity.
  - apply list_elem_of_In. vm_compute. left. reflexivity.
Defined.

(** ** Ballot lines with single spaces *)

Lemma split_join sep (pieces : list jsstring) :
  pieces ≠ [] →
  Forall (λ piece, forallb (λ c, negb (c =? sep)) piece = true) pieces →
  split sep (join sep pieces) = pieces.
Proof.
  intros Hne Hall. induction Hall as [|piece pieces Hp Hps IH]; [done |].
  simpl. destruct pieces as [|piece' pieces].
  - by apply split_no_sep.
  - rewrite split_app_sep by done. f_equal. by apply IH.
Qed.

(** Splitting loses nothing: the pieces joined by the separator are the
    string again. *)
Lemma join_split sep s : join sep (split sep s) = s.
Proof.
  induction s as [|c s IH]; [done |]. rewrite split_cons.
  destruct (N.eqb_spec c sep) as [->|Hne].
  - simpl. destruct (split sep s) eqn:Hs; [by apply split_not_nil in Hs |].
    by rewrite IH.
  - destruct (split sep s) as [|piece pieces] eqn:Hs.
    { by apply split_not_nil in Hs. }
    simpl in *. destruct pieces; by rewrite <- IH.
Qed.

Lemma wordsFrom_token run token rest :
  forallb (λ c, negb (isSpace c)) token = true →
  wordsFrom run (token ++ rest) = wordsFrom (rev token ++ run) rest.
Proof.
  revert run. induction token as [|c token IH]; intros run; [done |].
  simpl. intros [Hc Ht]%andb_true_iff. apply negb_true_iff in Hc.
  rewrite Hc, IH by done. by rewrite <- (assoc_L (++)).
Qed.

Lemma token_no_blank token :
  isToken token → forallb (λ c, negb (c =? 32)) token = true.
Proof.
  intros [_ H]. revert H. apply forallb_impl. intros c Hc.
  apply negb_true_iff, N.eqb_neq. intros ->. done.
Qed.

Lemma words_join tokens :
  Forall isToken tokens → words (join 32 tokens) = tokens.
Proof.
  unfold words. induction 1 as [|token tokens [Hne Ht] Hts IH]; [done |].
  assert (Hrun : nonEmpty (rev token) = true).
  { destruct token as [|c token]; [done |]. simpl.
    by destruct (rev token). }
  simpl. destruct tokens as [|token' tokens].
  - replace (wordsFrom [] token) with (wordsFrom [] (token ++ []))
      by by rewrite app_nil_r.
    rewrite wordsFrom_token by done.
    simpl. rewrite app_nil_r, Hrun, rev_involutive. done.
  - rewrite wordsFrom_token by done. rewrite app_nil_r.
    change (wordsFrom (rev token) (32 :: join 32 (token' :: tokens)))
      with (if nonEmpty (rev token)
            then rev (rev token) :: wordsFrom [] (join 32 (token' :: tokens))
            else wordsFrom [] (join 32 (token' :: tokens))).
    rewrite Hrun, rev_involutive, IH. done.
Qed.

(** On a ballot line whose tokens stand one space apart the code cuts
    the line into its tokens: the weight is read from the first, and the
    ballot has one ranking for each token between the first and the
    last. *)
Theorem single_spaced_ballot weight0 middle final :
  Forall isToken (weight0 :: middle ++ [final]) →
  let line := join 32 (weight0 :: middle ++ [final]) in
  ballotTokens line = words line ∧
  words line = weight0 :: middle ++ [final] ∧
  makeBallot line =
    {| weight := Number weight0; rankings := processRankings middle |} ∧
  length (rankings (makeBallot line)) = length middle.
Proof.
  intros Hall line.
  assert (Hw : words line = weight0 :: middle ++ [final])
    by by apply words_join.
  assert (Hb : ballotTokens line = weight0 :: middle ++ [final]).
  { unfold ballotTokens, line. rewrite split_join.
    - apply list_eq. intros i. rewrite list_lookup_fmap.
      destruct ((weight0 :: middle ++ [final]) !! i) as [t|] eqn:Ht;
        [| done].
      simpl. f_equal. apply trim_no_space.
      by apply (Forall_lookup_1 _ _ _ _ Hall) in Ht as [_ ?].
    - done.
    - eapply Forall_impl; [done |]. apply token_no_blank. }
  rewrite Hw, Hb. split; [done |]. split; [done |].
  rewrite (makeBallot_tokens line weight0 middle final Hb).
  split; [done |]. simpl. apply processRankings_length.
Qed.

Lemma single_spaced_ballot_witness :
  let line := join 32 (str "6" :: [str "4"; str "3"] ++ [str "0"]) in
  ballotTokens line = words line ∧
  words line = str "6" :: [str "4"; str "3"] ++ [str "0"] ∧
  makeBallot line =
    {| weight := Number (str "6");
       rankings := processRankings [str "4"; str "3"] |} ∧
  length (rankings (makeBallot line)) = length [str "4"; str "3"].
Proof.
  apply (single_spaced_ballot (str "6") [str "4"; str "3"] (str "0")).
  repeat (constructor; [split; [discriminate | reflexivity] |]).
  constructor.
Defined.

(** ** The two patterns *)

(** The tie pattern accepts exactly two non-empty digit strings with one
    equals sign between them, and [split] then gives back the two digit
    strings. *)
Theorem tie_pattern token :
  (isTie token = true ↔
   ∃ a b, isDigits a ∧ isDigits b ∧ token = a ++ 61 :: b) ∧
  (∀ a b, isDigits a → isDigits b → split 61 (a ++ 61 :: b) = [a; b]).
Proof.
  split.
  - rewrite isTie_spec. unfold tieOf, isDigits. split.
    + intros (a & b & -> & ? & ? & ? & ?). by exists a, b.
    + intros (a & b & [? ?] & [? ?] & ->). by exists a, b.
  - intros a b [_ Ha] [_ Hb].
    rewrite split_app_sep by by apply (digits_no_char "=").
    by rewrite split_no_sep by by apply (digits_no_char "=").
Qed.

(** The pattern of the withdrawal line accepts exactly the lines made of
    one group or more, each group a minus sign, a non-empty digit string
    and any white space, in that order. *)
Lemma withdrawnGroup_matches g :
  matches (Seq (Cls (isChar "-"))
             (Seq (Plus (Cls isDigit)) (Star (Cls isSpace)))) g ↔
  ∃ ds ws, g = withdrawnGroup (ds, ws) ∧ isDigits ds ∧
           forallb isSpace ws = true.
Proof.
  split.
  - intros (m & s2 & -> & Hm & H2)%matches_seq_inv.
    apply matches_seq_inv in H2 as (ds & ws & -> & Hds & Hws).
    apply matches_cls_inv in Hm as (c & -> & Hc). apply N.eqb_eq in Hc as ->.
    apply matches_plus_cls in Hds. apply matches_star_cls in Hws.
    by exists ds, ws.
  - intros (ds & ws & -> & Hds & Hws).
    apply (m_seq _ _ [45] (ds ++ ws)); [by constructor |].
    apply m_seq; [by apply matches_plus_cls | by apply matches_star_cls].
Qed.

Theorem withdrawn_pattern line :
  accepts withdrawnRe line = true ↔
  ∃ groups,
    groups ≠ [] ∧ line = concat (withdrawnGroup <$> groups) ∧
    Forall (λ g, isDigits g.1 ∧ forallb isSpace g.2 = true) groups.
Proof.
  rewrite accepts_matches. unfold withdrawnRe, Plus.
  set (G := Seq (Cls (isChar "-")) _).
  assert (Hstar : ∀ s, matches (Star G) s ↔
            ∃ groups, s = concat (withdrawnGroup <$> groups) ∧
              Forall (λ g, isDigits g.1 ∧ forallb isSpace g.2 = true) groups).
  { intros s. split.
    - revert s. apply matches_star_ind; [by exists [] |].
      intros s1 s2 (ds & ws & -> & Hds & Hws)%withdrawnGroup_matches
        (groups & -> & Hall).
      exists ((ds, ws) :: groups). split; [done |]. by constructor.
    - intros (groups & -> & Hall).
      induction Hall as [|[ds ws] groups [Hds Hws] Hall IH];
        [constructor |].
      simpl concat. apply (m_star_cons G 45 (ds ++ ws)); [| done].
      apply withdrawnGroup_matches. by exists ds, ws. }
  split.
  - intros (g & s & -> & (ds & ws & -> & Hds & Hws)%withdrawnGroup_matches
            & (groups & -> & Hall)%Hstar)%matches_seq_inv.
    exists ((ds, ws) :: groups). split; [done |]. split; [done |].
    by constructor.
  - intros (groups & Hne & -> & Hall).
    destruct Hall as [|[ds ws] groups [Hds Hws] Hall]; [done |].
    change (matches (Seq G (Star G))
              (withdrawnGroup (ds, ws) ++
               concat (withdrawnGroup <$> groups))).
    apply m_seq.
    + apply withdrawnGroup_matches. by exists ds, ws.
    + apply Hstar. by exists groups.
Qed.

(** ** The page *)

Lemma removelast_shorter {A} (l : list A) :
  l ≠ [] → length (removelast l) = (length l - 1)%nat.
Proof.
  intros Hne. destruct (exists_last Hne) as (l' & x & ->).
  rewrite removelast_last, length_app. simpl. lia.
Qed.

Lemma clearLoop_enough (fuel : nat) children :
  (length children ≤ fuel)%nat → clearLoop fuel children = [].
Proof.
  revert children. induction fuel as [|fuel IH]; intros children Hlen.
  - destruct children; [done | simpl in Hlen; lia].
  - simpl. destruct (last children) as [x|] eqn:Hlast.
    + apply IH. rewrite removelast_shorter; [lia |].
      intros ->. done.
    + by apply last_None in Hlast.
Qed.

(** [clearElement] stops with an element that has no child left,
    whatever children it had. *)
Theorem clearElement_empties children :
  clearElement children = [] ∧ last (clearElement children) = None.
Proof.
  unfold clearElement. by rewrite clearLoop_enough.
Qed.

Lemma clearElement_nil children : clearElement children = [].
Proof. unfold clearElement. by rewrite clearLoop_enough. Qed.

(** What [onInput] shows.  For a text area that is blank nothing is
    shown and [parse] is not called.  Otherwise exactly one of the two
    elements gets one child: the result, when a line survives the
    cleaning, and the error message, with the exception on the console,
    when none does. *)
Theorem onInput_shows stringify p :
  (trim (bltTextarea p) = [] →
     parserResults (onInput stringify p) = [] ∧
     parserError (onInput stringify p) = [] ∧
     console (onInput stringify p) = console p) ∧
  (trim (bltTextarea p) ≠ [] → cleanedLines (bltTextarea p) ≠ [] →
     ∃ r, parse (bltTextarea p) = Return r ∧
          parserResults (onInput stringify p) = [Pre (stringify r)] ∧
          parserError (onInput stringify p) = [] ∧
          console (onInput stringify p) = console p) ∧
  (trim (bltTextarea p) ≠ [] → cleanedLines (bltTextarea p) = [] →
     parserResults (onInput stringify p) = [] ∧
     parserError (onInput stringify p) = [Text oops] ∧
     console (onInput stringify p) = console p ++ [TypeError]).
Proof.
  unfold onInput. rewrite !clearElement_nil.
  destruct (trim (bltTextarea p)) as [|c t] eqn:Htrim; simpl.
  - split; [done |]. split; done.
  - split; [done |]. split.
    + intros _ Hne.
      destruct (cleanedLines (bltTextarea p)) as [|firstLine lines] eqn:Hl;
        [done |].
      rewrite (parse_Return _ _ _ Hl). eexists. done.
    + intros _ Hnil. unfold parse. rewrite Hnil. done.
Qed.

(** What [onInput] shows depends on the value of the text area only,
    not on what the two elements showed before; a second call changes
    nothing on the page. *)
Theorem onInput_value_only stringify p p' :
  bltTextarea p = bltTextarea p' →
  parserResults (onInput stringify p) = parserResults (onInput stringify p') ∧
  parserError (onInput stringify p) = parserError (onInput stringify p') ∧
  bltTextarea (onInput stringify p) = bltTextarea p ∧
  parserResults (onInput stringify (onInput stringify p)) =
    parserResults (onInput stringify p) ∧
  parserError (onInput stringify (onInput stringify p)) =
    parserError (onInput stringify p).
Proof.
  intros Hv.
  assert (Hsame : ∀ q q', bltTextarea q = bltTextarea q' →
            parserResults (onInput stringify q) =
              parserResults (onInput stringify q') ∧
            parserError (onInput stringify q) =
              parserError (onInput stringify q')).
  { intros q q' Hq. unfold onInput. rewrite !clearElement_nil, Hq.
    destruct (length (trim (bltTextarea q')) =? 0)%nat; [done |].
    destruct (parse (bltTextarea q')); done. }
  assert (Hval : ∀ q, bltTextarea (onInput stringify q) = bltTextarea q).
  { intros q. unfold onInput.
    destruct (length (trim (bltTextarea q)) =? 0)%nat; [done |].
    destruct (parse (bltTextarea q)); done. }
  destruct (Hsame p p' Hv) as [? ?].
  destruct (Hsame (onInput stringify p) p (Hval p)) as [? ?].
  done.
Qed.

Lemma onInput_value_only_witness :
  let stringify := λ r : ElectionResult, default [] (electionName r) in
  let p := {| bltTextarea := tieAndSkip; parserResults := [];
              parserError := [Text oops]; console := [TypeError] |} in
  let p' := {| bltTextarea := tieAndSkip;
               parserResults := [Pre (str "old"); Pre (str "older")];
               parserError := []; console := [] |} in
  parserResults (onInput stringify p) = parserResults (onInput stringify p') ∧
  parserError (onInput stringify p) = parserError (onInput stringify p') ∧
  bltTextarea (onInput stringify p) = bltTextarea p ∧
  parserResults (onInput stringify (onInput stringify p)) =
    parserResults (onInput stringify p) ∧
  parserError (onInput stringify (onInput stringify p)) =
    parserError (onInput stringify p).
Proof.
  intros stringify p p'.
  apply (onInput_value_only stringify p p'). reflexivity.
Defined.
